(** * HathiTrust full-text / extracted-features pipeline

    A shallow embedding of [scripts/process_ht_fulltext.py] (page
    segmentation and text cleaning) and [scripts/combine_dataFiles.py]
    (alignment of two page-indexed tables), with the properties that the
    specification states about them.

    Conventions.
    - A Python [str] is a list of characters; characters are the 8-bit
      [ascii] type read as the code points U+0000..U+00FF.
    - The [re] module is embedded as a small backtracking matcher over
      the constructs the two scripts use (literals, optional items,
      greedy bounded-below repetition of a character class, groups).
    - A pandas [DataFrame] is a list of labelled columns, each typed as
      [read_csv] types it: numeric or object.  The calls of pandas are
      embedded by what they do to such frames ([merge], [to_numeric],
      [sort_values], [replace], [rename]).
    - A function that may raise returns a sum: the exception or the value.
    - Reading and writing files are inputs of the functions: what
      [read_csv] gave, and whether writing raises. *)

From Stdlib Require Import Arith Lia Bool Ascii String DecimalString ZArith List.
From Stdlib Require Import Permutation Sorted.
Import ListNotations.

Set Implicit Arguments.

(** ** Python strings *)

Definition text := list ascii.

Definition str (s : string) : text := list_ascii_of_string s.

Definition nl : ascii := "010"%char.
Definition sp : ascii := " "%char.

Definition is_nl (c : ascii) : bool := Ascii.eqb c nl.
Definition is_sp (c : ascii) : bool := Ascii.eqb c sp.

(** [str.isspace] on the code points below 256: tab, line feed, vertical
    tab, form feed, carriage return, the four separators 0x1c..0x1f,
    space, NEL (0x85) and the no-break space (0xa0). *)
Definition isspace (c : ascii) : bool :=
  let n := nat_of_ascii c in
  ((9 <=? n) && (n <=? 13)) || ((28 <=? n) && (n <=? 32))
  || (n =? 133) || (n =? 160).

(** [\d] on the code points below 256: the digits 0..9. *)
Definition isdigit (c : ascii) : bool :=
  let n := nat_of_ascii c in (48 <=? n) && (n <=? 57).

Fixpoint dropwhile (p : ascii -> bool) (s : text) : text :=
  match s with
  | [] => []
  | c :: s' => if p c then dropwhile p s' else s
  end.

Fixpoint takewhile (p : ascii -> bool) (s : text) : text :=
  match s with
  | [] => []
  | c :: s' => if p c then c :: takewhile p s' else []
  end.

Definition lstrip (s : text) : text := dropwhile isspace s.
Definition rstrip (s : text) : text := rev (dropwhile isspace (rev s)).

(** [s.strip()] *)
Definition strip (s : text) : text := rstrip (lstrip s).

(** [s[i:j]] for [0 <= i], [0 <= j]; like Python, the slice is clamped to
    the string and empty when [j <= i]. *)
Definition slice (s : text) (i j : nat) : text := firstn (j - i) (skipn i s).

(** [s.startswith(p)] *)
Fixpoint startswith (p s : text) : bool :=
  match p, s with
  | [], _ => true
  | _ :: _, [] => false
  | a :: p', b :: s' => Ascii.eqb a b && startswith p' s'
  end.

(** [p in s] *)
Fixpoint contains (p s : text) : bool :=
  startswith p s || match s with [] => false | _ :: s' => contains p s' end.

(** [s.replace(old, new)]: the occurrences of [old] are found from left to
    right and do not overlap.  [skip] counts the characters of an
    occurrence still to be passed over. *)
Fixpoint replace_from (old new : text) (skip : nat) (s : text) : text :=
  match s with
  | [] => []
  | c :: s' =>
      match skip with
      | S k => replace_from old new k s'
      | O => if startswith old s
             then new ++ replace_from old new (length old - 1) s'
             else c :: replace_from old new 0 s'
      end
  end.

Definition replace (old new s : text) : text :=
  match old with
  | [] => new ++ flat_map (fun c => c :: new) s
  | _ :: _ => replace_from old new 0 s
  end.

(** ** The [re] module *)

Module Re.

Inductive regex : Type :=
| Lit (s : text)                          (* literal characters *)
| Opt (r : regex)                         (* r? , greedy *)
| Rep (cls : ascii -> bool) (lo : nat)    (* cls{lo,} , greedy *)
| Group (i : nat) (r : regex)             (* i-th capturing group *)
| Seq (r1 r2 : regex).

Definition captures := list (nat * text).

Section Matcher.
Variable R : Type.

(** Greedy repetition: one more character of the class is tried first;
    when the rest of the pattern fails after it, the repetition stops
    here, provided the lower bound has been reached. *)
Fixpoint rep (cls : ascii -> bool) (lo : nat) (s : text) (pos : nat)
         (k : text -> nat -> option R) : option R :=
  let stop := match lo with O => k s pos | S _ => None end in
  match s with
  | [] => stop
  | c :: s' =>
      if cls c
      then match rep cls (pred lo) s' (S pos) k with
           | Some r => Some r
           | None => stop
           end
      else stop
  end.

(** [run r s pos caps k]: match [r] at the head of [s], which is
    [pos] characters after the start of the match, then continue with
    [k]; alternatives are tried in the order of the backtracking
    engine. *)
Fixpoint run (r : regex) (s : text) (pos : nat) (caps : captures)
         (k : text -> nat -> captures -> option R) : option R :=
  match r with
  | Lit l =>
      if startswith l s
      then k (skipn (length l) s) (pos + length l) caps
      else None
  | Opt r1 =>
      match run r1 s pos caps k with
      | Some x => Some x
      | None => k s pos caps
      end
  | Rep cls lo =>
      rep cls lo s pos (fun s' pos' => k s' pos' caps)
  | Group i r1 =>
      run r1 s pos caps
          (fun s' pos' caps' => k s' pos' ((i, firstn (pos' - pos) s) :: caps'))
  | Seq r1 r2 =>
      run r1 s pos caps (fun s' pos' caps' => run r2 s' pos' caps' k)
  end.
End Matcher.

(** The pattern matched at the head of [s]: the length of the match and
    the groups. *)
Definition match_here (r : regex) (s : text) : option (nat * captures) :=
  run r s 0 [] (fun _ pos caps => Some (pos, caps)).

Record match_obj : Type := Match {
  m_start : nat;
  m_end : nat;
  m_groups : captures
}.

Fixpoint lookup (i : nat) (caps : captures) : text :=
  match caps with
  | [] => []
  | (j, t) :: caps' => if Nat.eqb i j then t else lookup i caps'
  end.

(** [m.group(i)] *)
Definition group (m : match_obj) (i : nat) : text := lookup i (m_groups m).

(** [re.finditer]: scan from left to right; after a match the scan
    resumes at its end.  [pos] is the offset of [s] in the subject and
    [skip] the number of characters of the last match still ahead. *)
Fixpoint finditer_from (r : regex) (s : text) (pos skip : nat) : list match_obj :=
  match skip with
  | S k =>
      match s with
      | [] => []
      | _ :: s' => finditer_from r s' (S pos) k
      end
  | O =>
      match match_here r s with
      | Some (len, caps) =>
          Match pos (pos + len) caps ::
          match s with
          | [] => []
          | _ :: s' => finditer_from r s' (S pos) (len - 1)
          end
      | None =>
          match s with
          | [] => []
          | _ :: s' => finditer_from r s' (S pos) 0
          end
      end
  end.

Definition finditer (r : regex) (s : text) : list match_obj :=
  finditer_from r s 0 0.

(** [re.sub(r, repl, s)] for a replacement without group references. *)
Fixpoint sub_from (r : regex) (repl : text) (skip : nat) (s : text) : text :=
  match skip with
  | S k =>
      match s with
      | [] => []
      | _ :: s' => sub_from r repl k s'
      end
  | O =>
      match match_here r s with
      | Some (len, _) =>
          repl ++
          match s with
          | [] => []
          | c :: s' =>
              match len with
              | O => c :: sub_from r repl 0 s'
              | S len' => sub_from r repl len' s'
              end
          end
      | None =>
          match s with
          | [] => []
          | c :: s' => c :: sub_from r repl 0 s'
          end
      end
  end.

Definition sub (r : regex) (repl s : text) : text := sub_from r repl 0 s.

End Re.

(** ** scripts/process_ht_fulltext.py *)

Definition PARAGRAPH_BREAK : text := str "PARAGRAPH_BREAK".

(** [format_text] *)
Definition format_text (t : text) : text :=
  match t with
  | [] => t
  | _ :: _ =>
      let t1 := Re.sub (Re.Rep is_nl 2) PARAGRAPH_BREAK t in
      let t2 := replace [nl] [sp] t1 in
      let t3 := replace PARAGRAPH_BREAK [nl; nl] t2 in
      let t4 := Re.sub (Re.Rep is_sp 2) [sp] t3 in
      strip t4
  end.

Definition is_hash (c : ascii) : bool := Ascii.eqb c "#"%char.
Definition not_paren_hash (c : ascii) : bool :=
  negb (Ascii.eqb c "("%char || Ascii.eqb c "#"%char).

(** [separator_pattern]: the characters [## p], an optional dot, a space,
    group 1 (any run of characters other than an opening parenthesis or a
    hash), an opening parenthesis and a hash, group 2 (one or more
    digits), a closing parenthesis and a space, thirty or more hashes. *)
Definition separator_pattern : Re.regex :=
  Re.Seq (Re.Lit (str "## p"))
 (Re.Seq (Re.Opt (Re.Lit (str ".")))
 (Re.Seq (Re.Lit (str " "))
 (Re.Seq (Re.Group 1 (Re.Rep not_paren_hash 0))
 (Re.Seq (Re.Lit (str "(#"))
 (Re.Seq (Re.Group 2 (Re.Rep isdigit 1))
 (Re.Seq (Re.Lit (str ") "))
         (Re.Rep is_hash 30))))))).

Definition no_match : Re.match_obj := Re.Match 0 0 [].

(** One row of [page_data]: [(page_number, page_content, cleaned_content)]. *)
Definition page_row : Type := (text * text * text)%type.

(** The body of the loop [for i in range(len(separators))]. *)
Definition page_of (text_content : text) (separators : list Re.match_obj)
           (i : nat) : page_row :=
  let current_separator := nth i separators no_match in
  let page_number := Re.group current_separator 2 in
  let start_pos := Re.m_end current_separator in
  let end_pos :=
    if i <? length separators - 1
    then Re.m_start (nth (i + 1) separators no_match)
    else length text_content in
  let page_content := strip (slice text_content start_pos end_pos) in
  let cleaned_content := format_text page_content in
  (page_number, page_content, cleaned_content).

(** [page_data] after the loop: each iteration appends one row. *)
Definition page_data (text_content : text) : list page_row :=
  let separators := Re.finditer separator_pattern text_content in
  fold_left (fun acc i => acc ++ [page_of text_content separators i])
            (seq 0 (length separators)) [].

Definition string_of_nat (n : nat) : string :=
  NilEmpty.string_of_uint (Nat.to_uint n).

(** The file written by [csv.writer]: the header row, then the rows. *)
Definition csv_rows (pages : list page_row) : list (list text) :=
  [str "page"; str "text"; str "clean_text"]
  :: map (fun '(page_num, original_text, cleaned_text) =>
            [page_num; original_text; cleaned_text]) pages.

(** [process_text_to_csv].  [io_error] is the exception, if any, that
    opening or writing [output_filename] raises.  The result is the
    returned message and the rows written to the file, if it was written. *)
Definition process_text_to_csv (text_content : text) (output_filename : string)
           (io_error : option string) : string * option (list (list text)) :=
  let separators := Re.finditer separator_pattern text_content in
  match separators with
  | [] => ("Error: No page separators found in the text file. Check the format."%string,
           None)
  | _ :: _ =>
      let pages := page_data text_content in
      match io_error with
      | None =>
          (("CSV file created successfully: " ++ output_filename ++ " with "
            ++ string_of_nat (length pages) ++ " pages")%string,
           Some (csv_rows pages))
      | Some e => (("Error writing CSV file: " ++ e)%string, None)
      end
  end.


(** ** os.path

    The two calls of [os.path] that the entry points make, as
    [posixpath] defines them: the separator is the slash. *)

(** [s.rfind(c)] for a character [c]: the last position of [c] in [s], or
    [-1]. *)
Fixpoint rfind_from (c : ascii) (s : text) (pos last : Z) : Z :=
  match s with
  | [] => last
  | x :: s' => rfind_from c s' (pos + 1) (if Ascii.eqb x c then pos else last)
  end.

Definition rfind (c : ascii) (s : text) : Z := rfind_from c s 0 (-1).

(** [os.path.basename(p)]: what follows the last slash. *)
Definition basename (p : text) : text :=
  let i := (rfind "/"%char p + 1)%Z in
  skipn (Z.to_nat i) p.

(** [os.path.splitext(p)]: the path is split at its last dot, when that
    dot is after the last slash and a character other than a dot stands
    between them. *)
Definition splitext (p : text) : text * text :=
  let sepIndex := rfind "/"%char p in
  let dotIndex := rfind "."%char p in
  if (sepIndex <? dotIndex)%Z
  then
    let filename := slice p (Z.to_nat (sepIndex + 1)) (Z.to_nat dotIndex) in
    if existsb (fun ch => negb (Ascii.eqb ch "."%char)) filename
    then (firstn (Z.to_nat dotIndex) p, skipn (Z.to_nat dotIndex) p)
    else (p, [])
  else (p, []).

(** ** The entry points *)

(** What reading the input file gives. *)
Inductive read_outcome : Type :=
| ReadOk (content : text)
| FileNotFound
| ReadError (e : string).

(** [main] of [process_ht_fulltext.py], after the arguments are parsed:
    [input_file] and [output] are the arguments, [read] is what opening
    and reading [input_file] gives, [io_error] the exception, if any, of
    writing, and [print_error] gives, for a line, the exception that
    printing it raises, if any.  The result is the line printed, if
    any, the exit status and the file written, if any, with its name.

    The call of [print] for the result is inside the [try]: when it
    raises, the handler prints the exception and the status is 1; the
    file is written by then.  A [print] that raises in a handler ends
    the program with that exception, hence with status 1. *)
Definition process_main (input_file : text) (output : option text)
           (read : read_outcome) (io_error : option string)
           (print_error : string -> option string)
  : option string * nat * option (text * list (list text)) :=
  let output :=
    match output with
    | None =>
        let base_name := fst (splitext (basename input_file)) in
        base_name ++ str ".csv"
    | Some o => o
    end in
  let failure (message : string) (written : option (text * list (list text))) :=
    match print_error message with
    | None => (Some message, 1, written)
    | Some _ => (None, 1, written)
    end in
  match read with
  | ReadOk text_content =>
      let '(result, written) :=
        process_text_to_csv text_content (string_of_list_ascii output) io_error in
      let written := option_map (fun rows => (output, rows)) written in
      match print_error result with
      | None => (Some result, 0, written)
      | Some e => failure ("Error processing file: " ++ e)%string written
      end
  | FileNotFound =>
      failure ("Error: Input file '" ++ string_of_list_ascii input_file
               ++ "' not found")%string None
  | ReadError e => failure ("Error processing file: " ++ e)%string None
  end.

(** ** pandas

    Numbers are integers.  A cell of a numeric column stands for the
    [int64] or the [float64] that [read_csv] made of an integer
    literal, and is kept as that integer: the embedding follows pandas
    on the integers that both types hold exactly, those of magnitude at
    most [2 ^ 53], and the properties that depend on the value of a
    number are stated for these.  Numeric literals with a fraction or an
    exponent are not covered: the properties that depend on the
    conversion of a string are stated for the strings that are integer
    literals, or that no numeric literal can be. *)

Module Pd.

(** The exceptions that the calls of [combine_dataFiles.py] raise:
    [KeyError] with its key, [ValueError] and [MergeError].  The
    messages of the last two are not part of the embedding. *)
Inductive exn : Type :=
| KeyError (key : string)
| ValueError
| MergeError.

(** A computation that may raise: [inl e] is the exception [e]
    propagating, [inr v] the value. *)
Definition result (A : Type) : Type := (exn + A)%type.

(** A cell: a missing value, a number or a string. *)
Inductive value : Type :=
| NaN
| Num (z : Z)
| Str (s : string).

Definition value_eq_dec (a b : value) : {a = b} + {a <> b}.
Proof. decide equality; [apply Z.eq_dec|apply string_dec]. Defined.

Definition value_eqb (a b : value) : bool :=
  if value_eq_dec a b then true else false.

(** A column as [read_csv] types it: a numeric column (numbers and
    missing values) or an object column (strings and missing values). *)
Inductive column : Type :=
| NumCol (xs : list (option Z))
| ObjCol (xs : list (option string)).

(** A frame: its columns from left to right, each with its label. *)
Definition DataFrame : Type := list (string * column).

Definition values (c : column) : list value :=
  match c with
  | NumCol xs => map (fun x => match x with Some z => Num z | None => NaN end) xs
  | ObjCol xs => map (fun x => match x with Some s => Str s | None => NaN end) xs
  end.

Definition is_str (v : value) : bool :=
  match v with Str _ => true | _ => false end.

(** The column holding the given cells: an object column when a string
    is among them, a numeric column otherwise. *)
Definition column_of (vs : list value) : column :=
  if existsb is_str vs
  then ObjCol (map (fun v => match v with Str s => Some s | _ => None end) vs)
  else NumCol (map (fun v => match v with Num z => Some z | _ => None end) vs).

Definition height (c : column) : nat := length (values c).

(** [df.columns] *)
Definition columns (df : DataFrame) : list string := map fst df.

(** [len(df)] *)
Definition nrows (df : DataFrame) : nat :=
  match df with
  | [] => 0
  | (_, c) :: _ => height c
  end.

(** [df[name]] *)
Fixpoint get (name : string) (df : DataFrame) : option column :=
  match df with
  | [] => None
  | (n, c) :: df' => if String.eqb n name then Some c else get name df'
  end.

(** [df[name] = f(df[name])] *)
Definition update (name : string) (f : column -> column) (df : DataFrame) : DataFrame :=
  map (fun '(n, c) => if String.eqb n name then (n, f c) else (n, c)) df.

(** [Series.replace(to_replace, np.nan)] for a string [to_replace]. *)
Definition replace_nan (to_replace : string) (c : column) : column :=
  match c with
  | NumCol xs => NumCol xs
  | ObjCol xs =>
      ObjCol (map (fun x => match x with
                            | Some s => if String.eqb s to_replace then None else Some s
                            | None => None
                            end) xs)
  end.

(** [df.rename(columns={old: new}, inplace=True)] *)
Definition rename (old new : string) (df : DataFrame) : DataFrame :=
  map (fun '(n, c) => (if String.eqb n old then new else n, c)) df.

(** Rows picked by position; a missing position gives a missing value. *)
Definition take (idx : list (option nat)) (c : column) : column :=
  match c with
  | NumCol xs =>
      NumCol (map (fun i => match i with Some i => nth i xs None | None => None end) idx)
  | ObjCol xs =>
      ObjCol (map (fun i => match i with Some i => nth i xs None | None => None end) idx)
  end.

(** The order of keys: numbers by value, strings by code points, missing
    values last.  A column holds numbers or strings, never both. *)
Definition value_leb (a b : value) : bool :=
  match a, b with
  | _, NaN => true
  | NaN, _ => false
  | Num x, Num y => Z.leb x y
  | Str x, Str y => String.leb x y
  | Num _, Str _ => true
  | Str _, Num _ => false
  end.

Section Sort.
Variable A : Type.
Variable le : A -> A -> bool.

Fixpoint insert (x : A) (l : list A) : list A :=
  match l with
  | [] => [x]
  | y :: l' => if le x y then x :: l else y :: insert x l'
  end.

(** Sorting by insertion.  Equal elements keep their order; pandas leaves
    the order of rows with equal keys to the sort kind. *)
Definition sort (l : list A) : list A := fold_right insert [] l.
End Sort.

(** The positions of the rows in ascending order of their keys. *)
Definition argsort (keys : list value) : list nat :=
  map snd (sort (fun p q => value_leb (fst p) (fst q))
                (combine keys (seq 0 (length keys)))).

(** [df.sort_values(by, inplace=True)] *)
Definition sort_values (by_ : string) (df : DataFrame) : result DataFrame :=
  match get by_ df with
  | None => inl (KeyError by_)
  | Some k =>
      let order := map Some (argsort (values k)) in
      inr (map (fun '(n, c) => (n, take order c)) df)
  end.

(** Numeric literals are the integer literals, the form that page
    sequence numbers have: an optional sign and one or more digits. *)
Fixpoint digits_value (acc : Z) (s : text) : option Z :=
  match s with
  | [] => Some acc
  | c :: s' =>
      if isdigit c
      then digits_value (10 * acc + (Z.of_nat (nat_of_ascii c) - 48)) s'
      else None
  end.

Definition parse_digits (s : text) : option Z :=
  match s with
  | [] => None
  | _ :: _ => digits_value 0 s
  end.

Definition parse_int (s : text) : option Z :=
  match s with
  | c :: s' =>
      if Ascii.eqb c "-"%char then option_map Z.opp (parse_digits s')
      else if Ascii.eqb c "+"%char then parse_digits s'
      else parse_digits s
  | [] => None
  end.

(** The integers that [to_numeric] takes: from the least [int64] to the
    greatest [uint64].  Beyond, it raises (integer out of range). *)
Definition in_range (z : Z) : bool :=
  ((- 2 ^ 63 <=? z) && (z <=? 2 ^ 64 - 1))%Z.

(** The number that [to_numeric] reads in a string, if any. *)
Definition numeric_literal (s : text) : option Z :=
  match parse_int s with
  | Some z => if in_range z then Some z else None
  | None => None
  end.

Fixpoint parse_all (xs : list (option string)) : option (list (option Z)) :=
  match xs with
  | [] => Some []
  | None :: xs' => option_map (cons None) (parse_all xs')
  | Some s :: xs' =>
      match numeric_literal (str s), parse_all xs' with
      | Some z, Some zs => Some (Some z :: zs)
      | _, _ => None
      end
  end.

(** [pd.to_numeric(series)]: a numeric column is returned as it is; in
    an object column every string has to be a numeric literal, and
    [ValueError] is raised otherwise. *)
Definition to_numeric (c : column) : result column :=
  match c with
  | NumCol xs => inr (NumCol xs)
  | ObjCol xs =>
      match parse_all xs with
      | Some zs => inr (NumCol zs)
      | None => inl ValueError
      end
  end.

(** The positions of the rows whose key is [k]. *)
Definition positions (k : value) (keys : list value) : list nat :=
  map snd (filter (fun p => value_eqb (fst p) k)
                  (combine keys (seq 0 (length keys)))).

(** The rows of a full outer join for one key: the pairs of a left and
    a right position with that key, or the positions of one side alone
    when the other side has none. *)
Definition join_group (lk rk : list value) (k : value)
  : list (option nat * option nat) :=
  match positions k lk, positions k rk with
  | lpos, [] => map (fun l => (Some l, None)) lpos
  | [], rpos => map (fun r => (None, Some r)) rpos
  | lpos, rpos =>
      flat_map (fun l => map (fun r => (Some l, Some r)) rpos) lpos
  end.

(** The rows of [how='outer'], as positions in the two frames: the
    union of the keys of both sides, sorted, each with its group of
    rows; missing keys match each other and come last. *)
Definition full_outer_join (lk rk : list value) : list (option nat * option nat) :=
  flat_map (join_group lk rk) (sort value_leb (nodup value_eq_dec (lk ++ rk))).

(** [pd.merge] refuses to merge an object column that holds strings with
    a numeric column (it raises [ValueError], asking for [pd.concat]),
    unless one of the two sides has no rows. *)
Definition dtype_clash (lk rk : column) : bool :=
  match height lk, height rk with
  | O, _ | _, O => false
  | _, _ =>
      match lk, rk with
      | NumCol _, ObjCol _ => existsb is_str (values rk)
      | ObjCol _, NumCol _ => existsb is_str (values lk)
      | _, _ => false
      end
  end.

Definition mem (name : string) (names : list string) : bool :=
  existsb (String.eqb name) names.

(** The key of a row of the join: the key of its left row, or of its
    right row when it has no left row. *)
Definition pick_key (lk rk : list value) (p : option nat * option nat) : value :=
  match p with
  | (Some l, _) => nth l lk NaN
  | (None, Some r) => nth r rk NaN
  | (None, None) => NaN
  end.

(** A label other than the key that the other frame also has gets a
    suffix. *)
Definition suffixed (other : DataFrame) (suffix n : string) : string :=
  if mem n (columns other) then (n ++ suffix)%string else n.

(** The suffixes must not make a label occur twice on one side: a
    clash is a label that, once suffixed, is a label seen before on
    that side, while the label as it was had not been seen.  [labels]
    pairs each label with what the suffix makes of it. *)
Fixpoint new_duplicate (seen_old seen_new : list string)
         (labels : list (string * string)) : bool :=
  match labels with
  | [] => false
  | (old, new) :: rest =>
      (mem new seen_new && negb (mem old seen_old))
      || new_duplicate (old :: seen_old) (new :: seen_new) rest
  end.

Definition suffix_clash (left right : DataFrame) (on : string) : bool :=
  let others := filter (fun n => negb (String.eqb n on)) (columns right) in
  new_duplicate [] []
    (map (fun n => (n, if String.eqb n on then n else suffixed right "_x" n))
         (columns left))
  || new_duplicate [] [] (map (fun n => (n, suffixed left "_y" n)) others).

(** The frame of a join: the columns of [left], the key among them
    filled from whichever side has the row, then the other columns of
    [right]. *)
Definition joined (left right : DataFrame) (on : string) (lk rk : column)
  : DataFrame :=
  let idx := full_outer_join (values lk) (values rk) in
  let key := column_of (map (pick_key (values lk) (values rk)) idx) in
  map (fun '(n, c) =>
         if String.eqb n on then (n, key)
         else (suffixed right "_x" n, take (map fst idx) c)) left
  ++ map (fun '(n, c) => (suffixed left "_y" n, take (map snd idx) c))
         (filter (fun '(n, _) => negb (String.eqb n on)) right).

(** [pd.merge(left, right, on=on, how='outer')]: the key is looked up
    on both sides ([KeyError]), then the types of the two key columns
    are compared ([ValueError]), then the labels are suffixed
    ([MergeError]). *)
Definition merge (left right : DataFrame) (on : string) : result DataFrame :=
  match get on left, get on right with
  | Some lk, Some rk =>
      if dtype_clash lk rk then inl ValueError
      else if suffix_clash left right on then inl MergeError
      else inr (joined left right on lk rk)
  | _, _ => inl (KeyError on)
  end.

End Pd.

(** ** scripts/combine_dataFiles.py *)

Definition not_page (col : string) : bool := negb (String.eqb col "page").

(** The body of [combine_csv_files] between reading the two files and
    writing the result: the merged and sorted frame, or the exception
    that leaves the function. *)
Definition combine_frames (df1 df2 : Pd.DataFrame) : Pd.result Pd.DataFrame :=
  let non_page_cols := filter not_page (Pd.columns df2) in
  let df2 :=
    fold_left (fun df col => Pd.update col (Pd.replace_nan "No body data") df)
              non_page_cols df2 in
  let cols1 := filter not_page (Pd.columns df1) in
  let cols2 := non_page_cols in
  let collision :=
    length (nodup string_dec (cols1 ++ cols2)) <? length (cols1 ++ cols2) in
  let df1 :=
    match collision, cols1 with
    | true, c :: _ => Pd.rename c ("file1_" ++ c)%string df1
    | _, _ => df1
    end in
  let df2 :=
    match collision, cols2 with
    | true, c :: _ => Pd.rename c ("file2_" ++ c)%string df2
    | _, _ => df2
    end in
  match Pd.merge df1 df2 "page" with
  | inl e => inl e
  | inr merged_df =>
      let attempt :=
        match Pd.get "page" merged_df with
        | None => inl (Pd.KeyError "page")
        | Some page =>
            match Pd.to_numeric page with
            | inl e => inl e
            | inr numeric =>
                Pd.sort_values "page" (Pd.update "page" (fun _ => numeric) merged_df)
            end
        end in
      match attempt with
      | inr sorted => inr sorted
      | inl _ => Pd.sort_values "page" merged_df
      end
  end.

(** [combine_csv_files].  [file1] and [file2] stand for what
    [pd.read_csv] gives: the frame, or the text of the exception it
    raises; [io_error] is the exception, if any, that [to_csv] raises.
    The result is the returned message and the frame written, if any; or
    the exception that leaves the function. *)
Definition combine_csv_files (file1 file2 : string + Pd.DataFrame)
           (output_filename : string) (io_error : option string)
  : Pd.result (string * option Pd.DataFrame) :=
  match file1, file2 with
  | inl e, _ => inr (("Error reading input files: " ++ e)%string, None)
  | inr _, inl e => inr (("Error reading input files: " ++ e)%string, None)
  | inr df1, inr df2 =>
      match combine_frames df1 df2 with
      | inl e => inl e
      | inr merged_df =>
          match io_error with
          | None =>
              inr (("Combined CSV file created successfully: " ++ output_filename)%string,
                   Some merged_df)
          | Some e => inr (("Error writing output file: " ++ e)%string, None)
          end
      end
  end.

(** What ends the alignment script early: an exception of pandas that
    leaves [combine_csv_files], or the exception that [print] raises. *)
Inductive uncaught : Type :=
| PandasError (e : Pd.exn)
| PrintError (e : string).

(** [main] of [combine_dataFiles.py], after the arguments are parsed.
    [print_error] gives, for a line, the exception that printing it
    raises, if any.  The result is the line printed, the file written
    with its name, and the exception that ends the program, each if
    any. *)
Definition combine_main (file1 file2 : text) (output : option text)
           (read1 read2 : string + Pd.DataFrame) (io_error : option string)
           (print_error : string -> option string)
  : option string * option (text * Pd.DataFrame) * option uncaught :=
  let output :=
    match output with
    | None =>
        let base1 := fst (splitext (basename file1)) in
        let base2 := fst (splitext (basename file2)) in
        base1 ++ str "_" ++ base2 ++ str "_combined.csv"
    | Some o => o
    end in
  match combine_csv_files read1 read2 (string_of_list_ascii output) io_error with
  | inl e => (None, None, Some (PandasError e))
  | inr (result, written) =>
      let written := option_map (fun df => (output, df)) written in
      match print_error result with
      | None => (Some result, written, None)
      | Some e => (None, written, Some (PrintError e))
      end
  end.
(** ** Vocabulary of the properties *)

Unset Implicit Arguments.

(** Matches lie in the subject, in order and without overlap. *)
Fixpoint spans_ok (lo : nat) (ms : list Re.match_obj) (hi : nat) : Prop :=
  match ms with
  | [] => True
  | m :: ms' =>
      lo <= Re.m_start m /\ Re.m_start m <= Re.m_end m /\ Re.m_end m <= hi /\
      spans_ok (Re.m_end m) ms' hi
  end.

Definition seq_tail (r : Re.regex) : Re.regex :=
  match r with Re.Seq _ r2 => r2 | _ => r end.

(** A separator line as the pattern accepts it. *)
Definition separator_line (dot : bool) (label seq : text) (hashes : nat) : text :=
  str "## p" ++ (if dot then str "." else []) ++ str " " ++ label
  ++ str "(#" ++ seq ++ str ") " ++ repeat "#"%char hashes.

Definition spec_doc : text :=
  str "## p. 1 (#1) ##############################
Hello
world

Next para.
## p. 2 (#2) ##############################
Page two.".


(** The two tables of the end-to-end scenario. *)
Definition primary_12 : Pd.DataFrame :=
  [ ("page"%string, Pd.NumCol [Some 1%Z; Some 2%Z]);
    ("text"%string, Pd.ObjCol [Some "a"%string; Some "b"%string]) ].

Definition secondary_23 : Pd.DataFrame :=
  [ ("page"%string, Pd.NumCol [Some 2%Z; Some 3%Z]);
    ("words"%string, Pd.ObjCol [Some "5"%string; Some "No body data"%string]) ].

(** The lengths of the maximal runs of newlines of a text, from left to
    right; [cur] is the length of the run being read. *)
Fixpoint nl_runs_from (cur : nat) (s : text) : list nat :=
  match s with
  | [] => match cur with O => [] | S _ => [cur] end
  | c :: s' =>
      if is_nl c then nl_runs_from (S cur) s'
      else match cur with
           | O => nl_runs_from 0 s'
           | S _ => cur :: nl_runs_from 0 s'
           end
  end.

Definition nl_runs (s : text) : list nat := nl_runs_from 0 s.

(** A text in which every maximal run of the characters of a class is
    rewritten: a run of one character becomes [one], a longer run
    becomes [many].  [pending] is the length of the run being read. *)
Definition flush (one many : text) (pending : nat) : text :=
  match pending with
  | 0 => []
  | 1 => one
  | _ => many
  end.

Fixpoint squeeze (cls : ascii -> bool) (one many : text) (pending : nat)
         (s : text) : text :=
  match s with
  | [] => flush one many pending
  | c :: s' =>
      if cls c then squeeze cls one many (S pending) s'
      else flush one many pending ++ c :: squeeze cls one many 0 s'
  end.

Definition nl2sp (c : ascii) : ascii := if is_nl c then sp else c.

(** A page in which the placeholder text stands next to a paragraph break. *)
Definition placeholder_page : text :=
  str "Use PARAGRAPH_BREAK

here".

(** The second frame after its sentinel cells are blanked. *)
Definition blanked (df2 : Pd.DataFrame) : Pd.DataFrame :=
  fold_left (fun df col => Pd.update col (Pd.replace_nan "No body data") df)
            (filter not_page (Pd.columns df2)) df2.

Definition collision (df1 df2 : Pd.DataFrame) : bool :=
  let cols := filter not_page (Pd.columns df1) ++ filter not_page (Pd.columns df2) in
  length (nodup string_dec cols) <? length cols.

(** The two frames as [pd.merge] receives them. *)
Definition left_input (df1 df2 : Pd.DataFrame) : Pd.DataFrame :=
  match collision df1 df2, filter not_page (Pd.columns df1) with
  | true, c :: _ => Pd.rename c ("file1_" ++ c)%string df1
  | _, _ => df1
  end.

Definition right_input (df1 df2 : Pd.DataFrame) : Pd.DataFrame :=
  match collision df1 df2, filter not_page (Pd.columns df2) with
  | true, c :: _ => Pd.rename c ("file2_" ++ c)%string (blanked df2)
  | _, _ => blanked df2
  end.

(** The sort of the merged frame: by the page read as numbers, or, when
    that raises, by the page as it is. *)
Definition sort_by_page (merged_df : Pd.DataFrame) : Pd.result Pd.DataFrame :=
  let attempt :=
    match Pd.get "page" merged_df with
    | None => inl (Pd.KeyError "page")
    | Some page =>
        match Pd.to_numeric page with
        | inl e => inl e
        | inr numeric =>
            Pd.sort_values "page" (Pd.update "page" (fun _ => numeric) merged_df)
        end
    end in
  match attempt with
  | inr sorted => inr sorted
  | inl _ => Pd.sort_values "page" merged_df
  end.

(** All columns have as many cells as the frame has rows. *)
Definition well_formed (df : Pd.DataFrame) : bool :=
  forallb (fun '(_, c) => Pd.height c =? Pd.nrows df) df.

(** No key occurs more than once on both sides. *)
Definition repeats_on_one_side_only (lk rk : list Pd.value) : bool :=
  forallb (fun k => (count_occ Pd.value_eq_dec lk k <=? 1)
                    || (count_occ Pd.value_eq_dec rk k <=? 1)) (lk ++ rk).

(** The two sides have no key in common. *)
Definition disjoint_keys (lk rk : list Pd.value) : bool :=
  forallb (fun k => negb (existsb (Pd.value_eqb k) rk)) lk.

(** A secondary table that carries the legacy sentinel. *)
Definition secondary_legacy : Pd.DataFrame :=
  [ ("page"%string, Pd.NumCol [Some 2%Z; Some 3%Z]);
    ("words"%string, Pd.ObjCol [Some "5"%string; Some "No page data"%string]) ].

(** A table without a page column. *)
Definition keyless : Pd.DataFrame :=
  [ ("seq"%string, Pd.NumCol [Some 1%Z; Some 2%Z]);
    ("text"%string, Pd.ObjCol [Some "a"%string; Some "b"%string]) ].

(** A secondary table with a roman-numeral page key. *)
Definition secondary_roman : Pd.DataFrame :=
  [ ("page"%string, Pd.ObjCol [Some "ii"%string; Some "2"%string]);
    ("words"%string, Pd.ObjCol [Some "7"%string; Some "5"%string]) ].

(** Two tables with text page keys, roman numerals among them. *)
Definition primary_text : Pd.DataFrame :=
  [ ("page"%string, Pd.ObjCol [Some "ii"%string; Some "1"%string; Some "i"%string]);
    ("text"%string, Pd.ObjCol [Some "b"%string; Some "c"%string; Some "a"%string]) ].

(** Two tables that repeat the same page key. *)
Definition twice_1 : Pd.DataFrame :=
  [ ("page"%string, Pd.NumCol [Some 1%Z; Some 1%Z]);
    ("text"%string, Pd.ObjCol [Some "a"%string; Some "b"%string]) ].

Definition thrice_1 : Pd.DataFrame :=
  [ ("page"%string, Pd.NumCol [Some 1%Z; Some 1%Z; Some 1%Z]);
    ("words"%string, Pd.ObjCol [Some "5"%string; Some "6"%string; Some "7"%string]) ].

(** The rows of a frame, each with its cells from left to right. *)
Definition rows (df : Pd.DataFrame) : list (list Pd.value) :=
  map (fun i => map (fun col : string * Pd.column => nth i (Pd.values (snd col)) Pd.NaN) df)
      (seq 0 (Pd.nrows df)).



(** No cell outside the page column is the sentinel [No body data]. *)
Definition no_sentinel (c : Pd.column) : bool :=
  match c with
  | Pd.NumCol _ => true
  | Pd.ObjCol xs =>
      forallb (fun x => match x with
                        | Some s => negb (String.eqb s "No body data")
                        | None => true
                        end) xs
  end.

Definition sentinel_free (df : Pd.DataFrame) : bool :=
  forallb (fun '(n, c) => String.eqb n "page" || no_sentinel c) df.

(** Two tables whose other column has the same label. *)
Definition collide_a : Pd.DataFrame :=
  [ ("page"%string, Pd.NumCol [Some 1%Z]);
    ("text"%string, Pd.ObjCol [Some "a"%string]) ].

Definition collide_b : Pd.DataFrame :=
  [ ("page"%string, Pd.NumCol [Some 1%Z]);
    ("text"%string, Pd.ObjCol [Some "b"%string]) ].


(** The text after step 1 of the cleaning, and the text wanted after
    step 3: single newlines become spaces, longer runs of newlines
    become one blank line. *)
Definition step1 (t : text) : text := squeeze is_nl [nl] PARAGRAPH_BREAK 0 t.

Definition normal (t : text) : text := squeeze is_nl [sp] [nl; nl] 0 t.

(** The run of newlines that ends, if any. *)
Definition closed (cur : nat) : list nat :=
  match cur with O => [] | S _ => [cur] end.

(** The number of rows that a key with [a] rows on the left and [b] rows
    on the right has in the outer join. *)
Definition group_size (a b : nat) : nat :=
  match a, b with
  | _, O => a
  | O, _ => b
  | _, _ => a * b
  end.

Definition all_height (n : nat) (df : Pd.DataFrame) : Prop :=
  Forall (fun col : string * Pd.column => Pd.height (snd col) = n) df.

(** The cells of a frame, column by column. *)
Definition colvals (df : Pd.DataFrame) : list (list Pd.value) :=
  map (fun col : string * Pd.column => Pd.values (snd col)) df.



(** The cell of a column at a position of the join. *)
Definition cell (c : Pd.column) (o : option nat) : Pd.value :=
  match o with
  | Some i => nth i (Pd.values c) Pd.NaN
  | None => Pd.NaN
  end.



Abbreviation pair := (option nat * option nat)%type (only parsing).


(** The frame of a join with a given key column. *)
Definition assemble (key : Pd.column) (idx : list pair) (left right : Pd.DataFrame)
  : Pd.DataFrame :=
  map (fun '(n, c) =>
         if String.eqb n "page" then (n, key)
         else (Pd.suffixed right "_x" n, Pd.take (map fst idx) c)) left
  ++ map (fun '(n, c) => (Pd.suffixed left "_y" n, Pd.take (map snd idx) c))
         (filter (fun '(n, _) => negb (String.eqb n "page")) right).

(** What becomes of a key in the page column of the aligned frame: the
    merged column keeps strings or numbers, and is converted when every
    string is a numeric literal. *)
Definition coerce (b : bool) (v : Pd.value) : Pd.value :=
  if b
  then match v with Pd.Str s => Pd.Str s | _ => Pd.NaN end
  else match v with Pd.Num z => Pd.Num z | _ => Pd.NaN end.

Definition numeric_cell (v : Pd.value) : Pd.value :=
  match v with
  | Pd.Str s =>
      match Pd.numeric_literal (str s) with Some z => Pd.Num z | None => Pd.NaN end
  | _ => v
  end.

Definition parses (v : Pd.value) : bool :=
  match v with
  | Pd.Str s =>
      match Pd.numeric_literal (str s) with Some _ => true | None => false end
  | _ => true
  end.

Definition convertible (keys : list Pd.value) : bool := forallb parses keys.

Definition final_cell (keys : list Pd.value) (v : Pd.value) : Pd.value :=
  if convertible keys
  then numeric_cell (coerce (existsb Pd.is_str keys) v)
  else coerce (existsb Pd.is_str keys) v.



(** The cells of a row outside the page column. *)
Definition others (S : list (bool * Pd.column)) (o : option nat) : list Pd.value :=
  map (fun '(_, c) => cell c o) (filter (fun '(b, _) => negb b) S).


(** *** The numbers and the strings that the embedding covers *)

(** An integer that [int64] and [float64] both hold exactly. *)
Definition exact (z : Z) : bool := (Z.abs z <=? 2 ^ 53)%Z.

Definition exact_value (v : Pd.value) : bool :=
  match v with
  | Pd.Num z => exact z
  | _ => true
  end.

Definition exact_column (c : Pd.column) : bool := forallb exact_value (Pd.values c).









(** ** Vocabulary of the further properties *)

(** The first character, if any, is not white space. *)
Definition edge_ok (s : text) : Prop :=
  match s with [] => True | c :: _ => isspace c = false end.

(** A text with no white space at either end. *)
Definition trimmed (s : text) : Prop := edge_ok s /\ edge_ok (rev s).

(** The characters of a text other than white space, in order. *)
Definition ink (s : text) : text := filter (fun c => negb (isspace c)) s.

(** [a] occurs in [s] as a block of consecutive characters. *)
Definition infix (a s : text) : Prop := exists l r, s = l ++ a ++ r.

(** The cleaning in one pass over the runs: single newlines become
    spaces and longer runs of newlines one blank line, then runs of
    spaces become one space, then the ends are stripped. *)
Definition cleaned (t : text) : text :=
  strip (squeeze is_sp [sp] [sp] 0 (normal t)).

(** A page of a document: the parts of its separator line and the text
    that follows the line. *)
Record page_spec : Type := Page {
  p_dot : bool;
  p_label : text;
  p_seq : text;
  p_hashes : nat;
  p_body : text
}.

Definition page_line (p : page_spec) : text :=
  separator_line (p_dot p) (p_label p) (p_seq p) (p_hashes p).

(** The separator line is one that the pattern accepts, and the text of
    the page is not empty and has no hash. *)
Definition page_ok (p : page_spec) : Prop :=
  Forall (fun c => not_paren_hash c = true) (p_label p) /\
  Forall (fun c => isdigit c = true) (p_seq p) /\ p_seq p <> [] /\
  30 <= p_hashes p /\
  p_body p <> [] /\ Forall (fun c => is_hash c = false) (p_body p).

(** The document made of the pages, one after the other. *)
Fixpoint render (pages : list page_spec) : text :=
  match pages with
  | [] => []
  | p :: ps => page_line p ++ p_body p ++ render ps
  end.

(** The matches of the separators of a rendered document that starts at
    offset [pos]. *)
Fixpoint marks (pos : nat) (pages : list page_spec) : list Re.match_obj :=
  match pages with
  | [] => []
  | p :: ps =>
      let e := pos + length (page_line p) in
      Re.Match pos e [(2, p_seq p); (1, p_label p)]
      :: marks (e + length (p_body p)) ps
  end.

(** The stem of a path: its base name without the extension. *)
Definition stem (p : text) : text := fst (splitext (basename p)).

Definition no_slash (s : text) : Prop := Forall (fun c => c <> "/"%char) s.

(** The page column by which the merged frame is sorted: the converted
    one, or the merged one when the conversion raises. *)
Definition sort_key (keys : list Pd.value) : Pd.column :=
  match Pd.to_numeric (Pd.column_of keys) with
  | inr c => c
  | inl _ => Pd.column_of keys
  end.

(** The keys of the rows of the join. *)
Definition join_keys (lk rk : list Pd.value) : list Pd.value :=
  map (Pd.pick_key lk rk) (Pd.full_outer_join lk rk).

(** The aligned frame in closed form: the join of the two frames as
    [pd.merge] receives them, with the page column that the sort sees,
    its rows in ascending order of that column. *)
Definition aligned (A B : Pd.DataFrame) (ka kb : Pd.column) : Pd.DataFrame :=
  let key := sort_key (join_keys (Pd.values ka) (Pd.values kb)) in
  map (fun '(n, c) => (n, Pd.take (map Some (Pd.argsort (Pd.values key))) c))
      (assemble key (Pd.full_outer_join (Pd.values ka) (Pd.values kb))
                (left_input A B) (right_input A B)).


(** What blanking does to a cell. *)
Definition blank_cell (v : Pd.value) : Pd.value :=
  match v with
  | Pd.Str s => if String.eqb s "No body data" then Pd.NaN else v
  | _ => v
  end.

(** The labels of a frame other than the page. *)
Definition other_columns (df : Pd.DataFrame) : list string :=
  filter not_page (Pd.columns df).



(** A match moved [d] characters to the right. *)
Definition shift (d : nat) (m : Re.match_obj) : Re.match_obj :=
  Re.Match (d + Re.m_start m) (d + Re.m_end m) (Re.m_groups m).
(** * Properties *)

Example ex_spec_doc :
  page_data spec_doc =
  [ (str "1", str "Hello
world

Next para.", str "Hello world

Next para.");
    (str "2", str "Page two.", str "Page two.") ].
Proof. vm_compute. reflexivity. Qed.

Example ex_short_rule :
  Re.finditer separator_pattern (str "## p. (#7) " ++ repeat "#"%char 29) = [].
Proof. vm_compute. reflexivity. Qed.

Example ex_no_dot :
  Re.finditer separator_pattern (str "## p (#7) " ++ repeat "#"%char 31 ++ str " x") =
  [Re.Match 0 41 [(2, str "7"); (1, [])]].
Proof. vm_compute. reflexivity. Qed.

Example ex_format_text :
  format_text (str "  A  line
wrapped


new   paragraph ") = str "A line wrapped

new paragraph".
Proof. vm_compute. reflexivity. Qed.

Example ex_spec_tables :
  combine_frames primary_12 secondary_23 =
  inr [ ("page"%string, Pd.NumCol [Some 1%Z; Some 2%Z; Some 3%Z]);
        ("text"%string, Pd.ObjCol [Some "a"%string; Some "b"%string; None]);
        ("words"%string, Pd.ObjCol [None; Some "5"%string; None]) ].
Proof. vm_compute. reflexivity. Qed.



(** ** Strings *)

Lemma startswith_app (p s : text) : startswith p (p ++ s) = true.
Proof.
  induction p as [|a p IH]; simpl; [reflexivity|].
  now rewrite Ascii.eqb_refl, IH.
Qed.

Lemma startswith_split (p s : text) :
  startswith p s = true -> s = p ++ skipn (length p) s.
Proof.
  revert s; induction p as [|a p IH]; intros [|b s]; simpl; try easy.
  intros H. apply andb_true_iff in H as [Hab Hps].
  apply Ascii.eqb_eq in Hab. subst b. f_equal. now apply IH.
Qed.

Lemma skipn_length_app (A : Type) (p s : list A) : skipn (length p) (p ++ s) = s.
Proof. induction p; simpl; auto. Qed.

Lemma firstn_length_app (A : Type) (p s : list A) : firstn (length p) (p ++ s) = p.
Proof. induction p; simpl; [now destruct s|congruence]. Qed.

(** ** The matcher *)

Module ReFacts.
Import Re.

(** Whatever [rep] returns comes from its continuation, called after
    some [n >= lo] characters of the class. *)
Lemma rep_sound (R : Type) cls lo s pos (k : text -> nat -> option R) r :
  rep cls lo s pos k = Some r ->
  exists n, lo <= n /\ n <= length s /\
            Forall (fun c => cls c = true) (firstn n s) /\
            k (skipn n s) (pos + n) = Some r.
Proof.
  revert lo pos; induction s as [|c s IH]; intros lo pos H; simpl in H.
  - destruct lo; [|discriminate]. exists 0. rewrite Nat.add_0_r. simpl. auto.
  - assert (Hstop : match lo with 0 => k (c :: s) pos | S _ => None end = Some r ->
                    exists n, lo <= n /\ n <= length (c :: s) /\
                      Forall (fun c => cls c = true) (firstn n (c :: s)) /\
                      k (skipn n (c :: s)) (pos + n) = Some r).
    { destruct lo; [|discriminate]. intros Hk. exists 0.
      rewrite Nat.add_0_r. simpl. repeat split; auto; lia. }
    destruct (cls c) eqn:Hc; [|now apply Hstop].
    destruct (rep cls (pred lo) s (S pos) k) eqn:Hrec; [|now apply Hstop].
    inversion H; subst r0. apply IH in Hrec as (n & Hlo & Hlen & Hall & Hk).
    exists (S n). simpl. repeat split; try lia.
    + now constructor.
    + now rewrite <- plus_n_Sm.
Qed.

(** Greedy choice: when the class run is maximal and the continuation
    succeeds after it, that is the result. *)
Lemma rep_greedy (R : Type) cls lo body rest pos (k : text -> nat -> option R) r :
  Forall (fun c => cls c = true) body ->
  match rest with [] => True | c :: _ => cls c = false end ->
  lo <= length body ->
  k rest (pos + length body) = Some r ->
  rep cls lo (body ++ rest) pos k = Some r.
Proof.
  intros Hall Hrest. revert lo pos.
  induction Hall as [|c body Hc Hall IH]; intros lo pos Hlo Hk; simpl in *.
  - rewrite Nat.add_0_r in Hk. assert (lo = 0) by lia; subst lo.
    destruct rest as [|c rest]; simpl; [exact Hk|]. now rewrite Hrest.
  - rewrite Hc. rewrite (IH (pred lo) (S pos)); auto; try lia.
    now rewrite <- plus_n_Sm in Hk.
Qed.

(** The continuation of [run] is entered after some prefix of the
    subject, with the position advanced by its length. *)
Lemma run_sound (R : Type) r : forall s pos caps (k : text -> nat -> captures -> option R) x,
  run r s pos caps k = Some x ->
  exists n caps', n <= length s /\ k (skipn n s) (pos + n) caps' = Some x.
Proof.
  induction r as [l|r1 IH1|cls lo|i r1 IH1|r1 IH1 r2 IH2]; intros s pos caps k x H; simpl in H.
  - destruct (startswith l s) eqn:Hl; [|discriminate].
    exists (length l), caps. split; [|exact H].
    apply startswith_split in Hl. rewrite Hl, length_app. lia.
  - destruct (run r1 s pos caps k) eqn:H1.
    + inversion H; subst. eapply IH1; eauto.
    + exists 0, caps. rewrite Nat.add_0_r. simpl. split; [lia|exact H].
  - apply rep_sound in H as (n & _ & Hn & _ & Hk). now exists n, caps.
  - apply IH1 in H as (n & caps' & Hn & Hk). eauto.
  - apply IH1 in H as (n & caps' & Hn & Hk).
    apply IH2 in Hk as (n2 & caps2 & Hn2 & Hk).
    exists (n + n2), caps2. rewrite skipn_skipn in Hk.
    rewrite length_skipn in Hn2. split; [lia|].
    now rewrite Nat.add_assoc, (Nat.add_comm n).
Qed.

Lemma match_here_length r s len caps :
  match_here r s = Some (len, caps) -> len <= length s.
Proof.
  unfold match_here. intros H.
  apply run_sound in H as (n & caps' & Hn & Hk). now inversion Hk; subst.
Qed.



Lemma spans_ok_weaken lo lo' ms hi :
  lo' <= lo -> spans_ok lo ms hi -> spans_ok lo' ms hi.
Proof. destruct ms; simpl; [auto|]. intros ? (? & ? & ? & ?). repeat split; auto; lia. Qed.

Lemma finditer_from_spans r s : forall pos skip,
  spans_ok (pos + skip) (finditer_from r s pos skip) (pos + length s).
Proof.
  induction s as [|c s IH]; intros pos skip.
  - destruct skip; simpl; [|exact I].
    destruct (match_here r []) as [[len caps]|] eqn:Hm; simpl; [|exact I].
    apply match_here_length in Hm. simpl in Hm. repeat split; lia.
  - destruct skip; simpl.
    + destruct (match_here r (c :: s)) as [[len caps]|] eqn:Hm; simpl.
      * apply match_here_length in Hm. simpl in Hm. repeat split; try lia.
        specialize (IH (S pos) (len - 1)).
        replace (pos + S (length s)) with (S pos + length s) by lia.
        eapply spans_ok_weaken; [|exact IH]. lia.
      * specialize (IH (S pos) 0).
        replace (pos + S (length s)) with (S pos + length s) by lia.
        eapply spans_ok_weaken; [|exact IH]. lia.
    + specialize (IH (S pos) skip).
      replace (pos + S (length s)) with (S pos + length s) by lia.
      eapply spans_ok_weaken; [|exact IH]. lia.
Qed.

Lemma spans_ok_nth lo ms hi : spans_ok lo ms hi ->
  forall i d, i < length ms ->
    lo <= m_start (nth i ms d) /\ m_start (nth i ms d) <= m_end (nth i ms d) /\
    m_end (nth i ms d) <= hi /\
    (S i < length ms -> m_end (nth i ms d) <= m_start (nth (S i) ms d)).
Proof.
  revert lo; induction ms as [|m ms IH]; intros lo H i d Hi; simpl in Hi; [lia|].
  destruct H as (H1 & H2 & H3 & H4). destruct i as [|i].
  - simpl. repeat split; auto. intros Hlt.
    destruct ms as [|m' ms]; simpl in *; [lia|]. tauto.
  - destruct (IH _ H4 i d) as (A & B & C & D); [lia|].
    change (nth (S i) (m :: ms) d) with (nth i ms d).
    change (nth (S (S i)) (m :: ms) d) with (nth (S i) ms d).
    repeat split; auto; try lia. intros Hlt. apply D. simpl in Hlt. lia.
Qed.

End ReFacts.

(** ** The separator pattern *)

Module Separator.
Import Re ReFacts.





Lemma Forall_repeat (A : Type) (P : A -> Prop) (a : A) n : P a -> Forall P (repeat a n).
Proof. intros H. induction n; simpl; constructor; auto. Qed.

Lemma run_tail label seq hashes rest pos caps :
  Forall (fun c => not_paren_hash c = true) label ->
  Forall (fun c => isdigit c = true) seq -> seq <> [] ->
  30 <= hashes ->
  match rest with [] => True | c :: _ => is_hash c = false end ->
  run (seq_tail (seq_tail separator_pattern))
      (str " " ++ label ++ str "(#" ++ seq ++ str ") " ++ repeat "#"%char hashes ++ rest)
      pos caps (fun _ p c => Some (p, c))
  = Some (pos + (1 + length label + 2 + length seq + 2 + hashes),
          (2, seq) :: (1, label) :: caps).
Proof.
  intros Hlabel Hseq Hne Hn Hrest.
  cbn [seq_tail separator_pattern run].
  rewrite startswith_app, skipn_length_app.
  apply rep_greedy; [exact Hlabel|reflexivity|lia|].
  rewrite startswith_app, skipn_length_app.
  apply rep_greedy; [exact Hseq|reflexivity| |].
  { destruct seq; [congruence|simpl; lia]. }
  rewrite startswith_app, skipn_length_app.
  apply rep_greedy; [apply Forall_repeat; reflexivity|exact Hrest| |].
  { rewrite repeat_length. exact Hn. }
  rewrite repeat_length. f_equal. f_equal; [simpl; lia|].
  f_equal; [f_equal|f_equal; f_equal].
  - match goal with |- firstn ?n _ = _ =>
      replace n with (length seq) by (simpl; lia) end.
    apply firstn_length_app.
  - match goal with |- firstn ?n _ = _ =>
      replace n with (length label) by (simpl; lia) end.
    apply firstn_length_app.
Qed.

End Separator.

(** ** Page segmentation *)

Module Segmenter.
Import Re ReFacts Separator.

Lemma fold_left_snoc_map (A B : Type) (f : A -> B) (l : list A) (acc : list B) :
  fold_left (fun acc i => acc ++ [f i]) l acc = acc ++ map f l.
Proof.
  revert acc; induction l as [|a l IH]; intros acc; simpl.
  - now rewrite app_nil_r.
  - rewrite IH, <- app_assoc. reflexivity.
Qed.

(** The loop of [process_text_to_csv] builds one row per separator. *)
Lemma page_data_map text_content :
  page_data text_content =
  map (page_of text_content (finditer separator_pattern text_content))
      (seq 0 (length (finditer separator_pattern text_content))).
Proof. unfold page_data. now rewrite fold_left_snoc_map. Qed.

Lemma page_data_length text_content :
  length (page_data text_content) =
  length (finditer separator_pattern text_content).
Proof. now rewrite page_data_map, length_map, length_seq. Qed.

Lemma page_data_nth text_content i d :
  i < length (finditer separator_pattern text_content) ->
  nth i (page_data text_content) d =
  page_of text_content (finditer separator_pattern text_content) i.
Proof.
  intros Hi. rewrite page_data_map.
  rewrite (nth_indep _ d (page_of text_content
                            (finditer separator_pattern text_content) 0))
    by now rewrite length_map, length_seq.
  rewrite map_nth, seq_nth; auto.
Qed.

Lemma run_lit_seq (R : Type) l r2 s pos caps
      (k : text -> nat -> captures -> option R) :
  run (Seq (Lit l) r2) s pos caps k =
  if startswith l s then run r2 (skipn (length l) s) (pos + length l) caps k
  else None.
Proof. reflexivity. Qed.

(** A match of the separator pattern is not empty. *)
Lemma match_here_nonempty s len caps :
  match_here separator_pattern s = Some (len, caps) -> 0 < len.
Proof.
  unfold match_here, separator_pattern. rewrite run_lit_seq.
  destruct (startswith (str "## p") s); [|discriminate].
  intros H. apply run_sound in H as (n & caps' & _ & H).
  inversion H. simpl. lia.
Qed.

Lemma finditer_from_nonempty r :
  (forall s len caps, match_here r s = Some (len, caps) -> 0 < len) ->
  forall s pos skip,
    Forall (fun m => m_start m < m_end m) (finditer_from r s pos skip).
Proof.
  intros HP. induction s as [|c s IH]; intros pos skip.
  - destruct skip; simpl; [|constructor].
    destruct (match_here r []) as [[len caps]|] eqn:Hm; constructor; auto.
    simpl. apply HP in Hm. lia.
  - destruct skip; simpl; [|apply IH].
    destruct (match_here r (c :: s)) as [[len caps]|] eqn:Hm.
    + constructor; [simpl; apply HP in Hm; lia|apply IH].
    + apply IH.
Qed.

Lemma match_here_separator_line dot label seq hashes rest :
  Forall (fun c => not_paren_hash c = true) label ->
  Forall (fun c => isdigit c = true) seq -> seq <> [] ->
  30 <= hashes ->
  match rest with [] => True | c :: _ => is_hash c = false end ->
  match_here separator_pattern (separator_line dot label seq hashes ++ rest) =
  Some (length (separator_line dot label seq hashes), [(2, seq); (1, label)]).
Proof.
  intros Hlabel Hseq Hne Hn Hrest.
  pose proof (fun pos => @run_tail label seq hashes rest pos [] Hlabel Hseq Hne Hn Hrest) as Htail.
  unfold match_here.
  change separator_pattern
    with (Seq (Lit (str "## p"))
              (Seq (Opt (Lit (str "."))) (seq_tail (seq_tail separator_pattern)))).
  unfold separator_line. repeat rewrite <- app_assoc.
  rewrite run_lit_seq, startswith_app, skipn_length_app.
  cbn [run]. destruct dot.
  - rewrite startswith_app, skipn_length_app, Htail.
    f_equal. f_equal. repeat rewrite length_app. rewrite repeat_length. simpl. lia.
  - simpl app at 1. replace (startswith (str ".") _) with false by reflexivity.
    rewrite Htail.
    f_equal. f_equal. repeat rewrite length_app. rewrite repeat_length. simpl. lia.
Qed.

End Segmenter.

(** ** Numeric literals *)

Module Numeric.





End Numeric.

(** ** Claims about [process_ht_fulltext.py] *)

(** C6.  A document without a separator match makes the function return
    the no-separator error message; no page row is built and no file is
    written. *)
Theorem no_separators_reported (text_content : text) (output_filename : string)
        (io_error : option string) :
  Re.finditer separator_pattern text_content = [] ->
  process_text_to_csv text_content output_filename io_error =
  ("Error: No page separators found in the text file. Check the format."%string, None)
  /\ page_data text_content = [].
Proof.
  intros H. unfold process_text_to_csv, page_data. rewrite H. split; reflexivity.
Qed.

Lemma no_separators_reported_witness :
  Re.finditer separator_pattern (str "Hello world, no page marks here.") = [] /\
  process_text_to_csv (str "Hello world, no page marks here.") "out.csv"%string None =
  ("Error: No page separators found in the text file. Check the format."%string, None).
Proof.
  assert (H : Re.finditer separator_pattern (str "Hello world, no page marks here.") = [])
    by (vm_compute; reflexivity).
  split; [exact H|].
  exact (proj1 (@no_separators_reported _ "out.csv"%string None H)).
Defined.


(** ** Text cleaning *)

Module Format.
Import Re ReFacts.

Lemma take_drop (p : ascii -> bool) (s : text) :
  s = takewhile p s ++ dropwhile p s.
Proof. induction s as [|c s IH]; simpl; [reflexivity|]. destruct (p c); simpl; congruence. Qed.

Lemma takewhile_all (p : ascii -> bool) (s : text) :
  Forall (fun c => p c = true) (takewhile p s).
Proof.
  induction s as [|c s IH]; simpl; [constructor|].
  destruct (p c) eqn:E; constructor; auto.
Qed.

Lemma dropwhile_head (p : ascii -> bool) (s : text) :
  match dropwhile p s with [] => True | c :: _ => p c = false end.
Proof. induction s as [|c s IH]; simpl; [exact I|]. destruct (p c) eqn:E; auto. Qed.

Lemma dropwhile_length (p : ascii -> bool) (s : text) :
  length (dropwhile p s) <= length s.
Proof. induction s as [|c s IH]; simpl; [lia|]. destruct (p c); simpl; lia. Qed.

Lemma takewhile_head_false (p : ascii -> bool) (s : text) :
  match s with [] => True | c :: _ => p c = false end -> takewhile p s = [].
Proof. destruct s as [|c s]; simpl; [reflexivity|]. now intros ->. Qed.

(** *** [re.sub] of a repeated class *)

Lemma rep_final cls caps s : forall lo pos,
  rep cls lo s pos (fun _ p => Some (p, caps)) =
  if lo <=? length (takewhile cls s)
  then Some (pos + length (takewhile cls s), caps : captures)
  else None.
Proof.
  induction s as [|c s IH]; intros lo pos; simpl.
  - destruct lo; simpl; [now rewrite Nat.add_0_r|reflexivity].
  - destruct (cls c) eqn:Hc; simpl.
    + rewrite IH. destruct lo as [|lo]; simpl.
      * now rewrite <- plus_n_Sm.
      * destruct (lo <=? length (takewhile cls s)); [now rewrite <- plus_n_Sm|reflexivity].
    + destruct lo; simpl; [now rewrite Nat.add_0_r|reflexivity].
Qed.

Lemma match_here_rep cls lo s :
  match_here (Rep cls lo) s =
  if lo <=? length (takewhile cls s)
  then Some (length (takewhile cls s), [])
  else None.
Proof. unfold match_here. simpl. now rewrite rep_final. Qed.

Lemma sub_from_skip r repl (a b : text) :
  sub_from r repl (length a) (a ++ b) = sub_from r repl 0 b.
Proof. induction a as [|c a IH]; simpl; [reflexivity|exact IH]. Qed.

Section Squeeze.
Variable cls : ascii -> bool.
Variables one many : text.

Lemma squeeze_run (body rest : text) (pending : nat) :
  Forall (fun c => cls c = true) body ->
  squeeze cls one many pending (body ++ rest) =
  squeeze cls one many (pending + length body) rest.
Proof.
  intros H. revert pending.
  induction H as [|c body Hc _ IH]; intros pending; simpl.
  - now rewrite Nat.add_0_r.
  - rewrite Hc, IH. f_equal. lia.
Qed.

Lemma squeeze_flush (rest : text) (pending : nat) :
  match rest with [] => True | c :: _ => cls c = false end ->
  squeeze cls one many pending rest =
  flush one many pending ++ squeeze cls one many 0 rest.
Proof.
  destruct rest as [|c rest]; simpl.
  - now rewrite app_nil_r.
  - intros ->. reflexivity.
Qed.

(** A text that starts with a character of the class: the run it
    starts is flushed, and the rest follows. *)
Lemma squeeze_cons_run (c : ascii) (s : text) :
  cls c = true ->
  squeeze cls one many 0 (c :: s) =
  flush one many (S (length (takewhile cls s)))
  ++ squeeze cls one many 0 (dropwhile cls s).
Proof.
  intros Hc. simpl. rewrite Hc.
  rewrite (take_drop cls s) at 1.
  rewrite squeeze_run by apply takewhile_all.
  rewrite squeeze_flush by apply dropwhile_head. reflexivity.
Qed.

Lemma squeeze_cons_other (c : ascii) (s : text) :
  cls c = false ->
  squeeze cls one many 0 (c :: s) = c :: squeeze cls one many 0 s.
Proof. intros Hc. simpl. now rewrite Hc. Qed.
End Squeeze.

(** [re.sub] of [c{2,}], for a character [c], rewrites the runs of two
    or more [c] and leaves the rest. *)
Lemma sub_squeeze cls ch many :
  (forall c, cls c = true -> c = ch) ->
  forall s, sub (Rep cls 2) many s = squeeze cls [ch] many 0 s.
Proof.
  intros Hcls s. unfold sub.
  remember (length s) as n eqn:Hn. revert s Hn.
  induction n as [n IH] using lt_wf_ind. intros s Hn.
  destruct s as [|c s].
  - reflexivity.
  - destruct (cls c) eqn:Hc.
    + rewrite squeeze_cons_run by exact Hc.
      cbn [sub_from]. rewrite match_here_rep. cbn [takewhile]. rewrite Hc.
      cbn [length].
      destruct (takewhile cls s) as [|d run] eqn:Hrun.
      * simpl Nat.leb. cbv iota. simpl flush.
        rewrite (IH (length s) ltac:(simpl in Hn; lia) s eq_refl).
        assert (Hs : dropwhile cls s = s).
        { rewrite (take_drop cls s) at 2. now rewrite Hrun. }
        rewrite Hs. now rewrite (Hcls c Hc).
      * simpl Nat.leb. cbv iota. cbn [flush length].
        f_equal.
        rewrite (take_drop cls s) at 1. rewrite Hrun.
        change (S (length run)) with (length (d :: run)).
        rewrite (sub_from_skip (Rep cls 2) many (d :: run) (dropwhile cls s)).
        apply (IH (length (dropwhile cls s))); [|reflexivity].
        pose proof (dropwhile_length cls s). simpl in Hn. lia.
    + rewrite squeeze_cons_other by exact Hc.
      cbn [sub_from]. rewrite match_here_rep. cbn [takewhile]. rewrite Hc.
      simpl. f_equal. apply (IH (length s)); [simpl in Hn; lia|reflexivity].
Qed.


(** *** [str.replace] *)

Lemma replace_newline s : replace [nl] [sp] s = map nl2sp s.
Proof.
  unfold replace. induction s as [|c s IH]; [reflexivity|].
  cbn [replace_from startswith map]. unfold nl2sp, is_nl.
  rewrite Ascii.eqb_sym, andb_true_r.
  destruct (Ascii.eqb c nl); simpl; now rewrite IH.
Qed.

Lemma replace_from_skip old new (a b : text) :
  replace_from old new (length a) (a ++ b) = replace_from old new 0 b.
Proof.
  induction a as [|c a IH]; simpl; [now destruct b|exact IH].
Qed.

Lemma replace_from_hit old new rest :
  old <> [] ->
  replace_from old new 0 (old ++ rest) = new ++ replace_from old new 0 rest.
Proof.
  destruct old as [|c old]; [congruence|]. intros _.
  change ((c :: old) ++ rest) with (c :: (old ++ rest)).
  cbn [replace_from].
  change (c :: (old ++ rest)) with ((c :: old) ++ rest).
  rewrite startswith_app. f_equal.
  replace (length (c :: old) - 1) with (length old) by (simpl; lia).
  apply replace_from_skip.
Qed.

Lemma replace_from_miss old new c s :
  startswith old (c :: s) = false ->
  replace_from old new 0 (c :: s) = c :: replace_from old new 0 s.
Proof. intros H. cbn [replace_from]. now rewrite H. Qed.

Lemma contains_cons p c s :
  contains p (c :: s) = false ->
  startswith p (c :: s) = false /\ contains p s = false.
Proof. cbn [contains]. intros H. now apply orb_false_iff in H. Qed.

Lemma contains_app_r p a b : contains p (a ++ b) = false -> contains p b = false.
Proof.
  induction a as [|c a IH]; simpl app; [auto|].
  intros H. apply contains_cons in H as [_ H]. auto.
Qed.

(** *** The placeholder *)

Lemma map_nl2sp_placeholder : map nl2sp PARAGRAPH_BREAK = PARAGRAPH_BREAK.
Proof. reflexivity. Qed.

(** No character of the placeholder is a space or a newline. *)
Lemma placeholder_chars p a w :
  PARAGRAPH_BREAK = p ++ a :: w -> is_nl a = false /\ Ascii.eqb a sp = false.
Proof.
  intros H.
  assert (Hin : In a PARAGRAPH_BREAK) by (rewrite H; apply in_elt).
  revert Hin. generalize a.
  apply Forall_forall. vm_compute. repeat constructor.
Qed.

(** The placeholder has no border: a proper, non-empty suffix of it is
    not the start of an occurrence. *)
Lemma placeholder_unbordered p w y :
  PARAGRAPH_BREAK = p ++ w -> p <> [] -> w <> [] ->
  startswith w (PARAGRAPH_BREAK ++ y) = false.
Proof.
  intros H Hp Hw.
  destruct p as [|c p]; [congruence|]. clear Hp.
  do 15 (destruct p as [|? p];
         [simpl in H; injection H as ? ?; subst; try congruence; reflexivity|]).
  simpl in H. apply (f_equal (@length ascii)) in H. simpl in H.
  rewrite length_app in H. lia.
Qed.


(** Where the text after steps 1 and 2 starts with a suffix of the
    placeholder, so does the raw text, unless a run of newlines starts
    there. *)
Lemma placeholder_start_reflects w : forall p t,
  PARAGRAPH_BREAK = p ++ w ->
  (p = [] -> match t with [] => True | c :: _ => is_nl c = false end) ->
  startswith w (map nl2sp (step1 t)) = true ->
  startswith w t = true.
Proof.
  induction w as [|a w IH]; intros p t Hpw Hstart H; [reflexivity|].
  destruct (placeholder_chars p a w Hpw) as [Hanl Hasp].
  destruct t as [|c s]; [discriminate H|].
  unfold step1 in H. destruct (is_nl c) eqn:Hc.
  - rewrite squeeze_cons_run in H by exact Hc.
    destruct (takewhile is_nl s) as [|d run] eqn:Hrun.
    + simpl in H. unfold nl2sp in H. simpl in H. rewrite Hasp in H. discriminate.
    + cbn [length flush] in H. rewrite map_app, map_nl2sp_placeholder in H.
      destruct p as [|b p]; [specialize (Hstart eq_refl); simpl in Hstart; congruence|].
      rewrite (@placeholder_unbordered (b :: p) (a :: w)) in H;
        [discriminate|exact Hpw|discriminate|discriminate].
  - rewrite squeeze_cons_other in H by exact Hc.
    cbn [map startswith] in H. unfold nl2sp in H at 1. rewrite Hc in H.
    apply andb_true_iff in H as [Hac H].
    cbn [startswith]. rewrite Hac. simpl.
    apply (IH (p ++ [a]) s).
    + now rewrite <- app_assoc.
    + intros E. destruct p; discriminate.
    + exact H.
Qed.


(** Steps 1 to 3 on a raw text without the placeholder. *)
Lemma steps123_normal t :
  contains PARAGRAPH_BREAK t = false ->
  replace PARAGRAPH_BREAK [nl; nl] (map nl2sp (step1 t)) = normal t.
Proof.
  change (replace PARAGRAPH_BREAK [nl; nl]) with (replace_from PARAGRAPH_BREAK [nl; nl] 0).
  remember (length t) as n eqn:Hn. revert t Hn.
  induction n as [n IH] using lt_wf_ind. intros t Hn Hfree.
  destruct t as [|c s]; [reflexivity|].
  unfold step1, normal. destruct (is_nl c) eqn:Hc.
  - rewrite !squeeze_cons_run by exact Hc.
    assert (Hrest : contains PARAGRAPH_BREAK (dropwhile is_nl s) = false).
    { apply contains_cons in Hfree as [_ Hfree].
      rewrite (take_drop is_nl s) in Hfree. now apply contains_app_r in Hfree. }
    assert (Hlt : length (dropwhile is_nl s) < n)
      by (pose proof (dropwhile_length is_nl s); simpl in Hn; lia).
    specialize (IH _ Hlt (dropwhile is_nl s) eq_refl Hrest).
    unfold step1, normal in IH.
    destruct (takewhile is_nl s) as [|d run].
    + cbn [length flush app map]. unfold nl2sp at 1.
      replace (is_nl nl) with true by reflexivity.
      rewrite replace_from_miss by reflexivity. now rewrite IH.
    + cbn [length flush]. rewrite map_app, map_nl2sp_placeholder.
      rewrite replace_from_hit by discriminate. now rewrite IH.
  - rewrite !squeeze_cons_other by exact Hc.
    apply contains_cons in Hfree as [Hhead Hfree].
    cbn [map]. unfold nl2sp at 1. rewrite Hc.
    rewrite replace_from_miss.
    + f_equal. apply (IH (length s)); [simpl in Hn; lia|reflexivity|exact Hfree].
    + destruct (startswith PARAGRAPH_BREAK (c :: map nl2sp (squeeze is_nl [nl] PARAGRAPH_BREAK 0 s)))
        eqn:E; [|reflexivity].
      rewrite <- Hhead. symmetry.
      apply (@placeholder_start_reflects PARAGRAPH_BREAK [] (c :: s)).
      * reflexivity.
      * intros _. exact Hc.
      * unfold step1. rewrite squeeze_cons_other by exact Hc.
        cbn [map]. unfold nl2sp at 1. now rewrite Hc.
Qed.


(** *** Runs of newlines *)


Lemma nl_runs_from_other cur c s :
  is_nl c = false -> nl_runs_from cur (c :: s) = closed cur ++ nl_runs_from 0 s.
Proof. intros Hc. simpl. rewrite Hc. now destruct cur. Qed.

Lemma nl_runs_from_positive s : forall cur,
  Forall (fun n => 0 < n) (nl_runs_from cur s).
Proof.
  induction s as [|c s IH]; intros cur; simpl.
  - destruct cur; [constructor|constructor; [lia|constructor]].
  - destruct (is_nl c); [apply IH|].
    destruct cur; [apply IH|constructor; [lia|apply IH]].
Qed.

(** Texts that have the same runs whatever run precedes them can stand
    for each other after any prefix. *)
Lemma nl_runs_from_congr a x y :
  (forall cur, nl_runs_from cur x = nl_runs_from cur y) ->
  forall cur, nl_runs_from cur (a ++ x) = nl_runs_from cur (a ++ y).
Proof.
  intros H. induction a as [|c a IH]; intros cur; simpl; [apply H|].
  destruct (is_nl c); [apply IH|]. destruct cur; now rewrite IH.
Qed.

(** Step 4 leaves the runs of newlines as they are. *)
Lemma squeeze_spaces_runs s : forall pending cur,
  nl_runs_from cur (squeeze is_sp [sp] [sp] pending s) =
  nl_runs_from cur (flush [sp] [sp] pending ++ s).
Proof.
  induction s as [|c s IH]; intros pending cur.
  - simpl. now rewrite app_nil_r.
  - cbn [squeeze]. destruct (is_sp c) eqn:Hc.
    + rewrite IH. apply Ascii.eqb_eq in Hc. subst c.
      destruct pending as [|[|pending]]; cbn [flush app]; try reflexivity;
        rewrite !(nl_runs_from_other cur sp) by reflexivity;
        now rewrite (nl_runs_from_other 0 sp) by reflexivity.
    + apply nl_runs_from_congr. intros cur'.
      change (c :: squeeze is_sp [sp] [sp] 0 s)
        with ([c] ++ squeeze is_sp [sp] [sp] 0 s).
      change (c :: s) with ([c] ++ s).
      apply nl_runs_from_congr. intros cur''. now rewrite IH.
Qed.

Lemma sub_spaces_runs s :
  nl_runs (sub (Rep is_sp 2) [sp] s) = nl_runs s.
Proof.
  rewrite (sub_squeeze is_sp sp [sp]).
  - unfold nl_runs. now rewrite squeeze_spaces_runs.
  - intros c Hc. now apply Ascii.eqb_eq in Hc.
Qed.

Lemma nl_isspace c : is_nl c = true -> isspace c = true.
Proof. intros H. apply Ascii.eqb_eq in H. now subst c. Qed.

(** Stripping on the left removes runs from the front. *)
Lemma lstrip_runs s : forall cur,
  exists pre, nl_runs_from cur s = pre ++ nl_runs (lstrip s).
Proof.
  unfold lstrip, nl_runs. induction s as [|c s IH]; intros cur.
  - exists (closed cur). simpl. rewrite app_nil_r. now destruct cur.
  - cbn [dropwhile]. destruct (isspace c) eqn:Hsp.
    + destruct (is_nl c) eqn:Hc.
      * simpl. rewrite Hc. apply IH.
      * rewrite nl_runs_from_other by exact Hc.
        destruct (IH 0) as [pre Hpre]. exists (closed cur ++ pre).
        now rewrite Hpre, app_assoc.
    + assert (Hc : is_nl c = false).
      { destruct (is_nl c) eqn:Hc; [|reflexivity].
        apply nl_isspace in Hc. congruence. }
      exists (closed cur). rewrite !nl_runs_from_other by exact Hc. reflexivity.
Qed.

Lemma nl_runs_from_snoc_other a c w : is_nl c = false -> forall cur,
  nl_runs_from cur (a ++ c :: w) = nl_runs_from cur (a ++ [c]) ++ nl_runs_from 0 w.
Proof.
  intros Hc. induction a as [|d a IH]; intros cur.
  - simpl app. rewrite !nl_runs_from_other by exact Hc. simpl.
    rewrite ?Hc, ?app_nil_r. now destruct cur.
  - simpl. destruct (is_nl d); [apply IH|].
    destruct cur; rewrite IH; reflexivity.
Qed.

(** Stripping on the right removes runs from the back. *)
Lemma rstrip_runs s : exists post, nl_runs s = nl_runs (rstrip s) ++ post.
Proof.
  unfold rstrip.
  pose proof (take_drop isspace (rev s)) as Hs.
  apply (f_equal (@rev ascii)) in Hs. rewrite rev_involutive, rev_app_distr in Hs.
  generalize dependent (rev (takewhile isspace (rev s))). intros w Hs.
  pose proof (dropwhile_head isspace (rev s)) as Hhead.
  destruct (dropwhile isspace (rev s)) as [|c body].
  - exists (nl_runs s). reflexivity.
  - simpl rev in *. rewrite Hs.
    assert (Hc : is_nl c = false).
    { destruct (is_nl c) eqn:Hc; [|reflexivity].
      apply nl_isspace in Hc. congruence. }
    unfold nl_runs. rewrite <- app_assoc. simpl app.
    rewrite nl_runs_from_snoc_other by exact Hc. eauto.
Qed.

Lemma strip_runs (P : nat -> Prop) s :
  Forall P (nl_runs s) -> Forall P (nl_runs (strip s)).
Proof.
  intros H. unfold strip.
  destruct (lstrip_runs s 0) as [pre Hpre]. fold (nl_runs s) in Hpre.
  rewrite Hpre in H. apply Forall_app in H as [_ H].
  destruct (rstrip_runs (lstrip s)) as [post Hpost].
  rewrite Hpost in H. now apply Forall_app in H as [H _].
Qed.

(** Every run of newlines of the wanted text is a pair. *)
Lemma normal_runs s : forall pending,
  Forall (fun n => n = 2) (nl_runs (squeeze is_nl [sp] [nl; nl] pending s)).
Proof.
  unfold nl_runs. induction s as [|c s IH]; intros pending.
  - destruct pending as [|[|pending]]; simpl; repeat constructor.
  - cbn [squeeze]. destruct (is_nl c) eqn:Hc; [apply IH|].
    destruct pending as [|[|pending]]; cbn [flush app].
    + rewrite nl_runs_from_other by exact Hc. apply IH.
    + rewrite nl_runs_from_other by reflexivity.
      rewrite nl_runs_from_other by exact Hc. apply IH.
    + change (nl_runs_from 0 (nl :: nl :: c :: squeeze is_nl [sp] [nl; nl] 0 s))
        with (nl_runs_from 2 (c :: squeeze is_nl [sp] [nl; nl] 0 s)).
      rewrite nl_runs_from_other by exact Hc. constructor; [reflexivity|apply IH].
Qed.

(** Step 3 on a text without newlines only makes runs of even length. *)
Lemma replace_runs_even s :
  Forall (fun c => is_nl c = false) s ->
  forall skip cur, Nat.even cur = true ->
    Forall (fun n => Nat.even n = true)
           (nl_runs_from cur (replace_from PARAGRAPH_BREAK [nl; nl] skip s)).
Proof.
  induction 1 as [|c s Hc Hs IH]; intros skip cur Hcur.
  - simpl. destruct cur; repeat constructor. exact Hcur.
  - cbn [replace_from]. destruct skip as [|skip]; [|now apply IH].
    destruct (startswith PARAGRAPH_BREAK (c :: s)).
    + change (nl_runs_from cur ([nl; nl] ++ ?x)) with (nl_runs_from (S (S cur)) x).
      cbn [app]. change (nl_runs_from cur (nl :: nl :: ?x)) with (nl_runs_from (S (S cur)) x).
      apply IH. exact Hcur.
    + rewrite nl_runs_from_other by exact Hc.
      apply Forall_app. split; [|now apply IH].
      destruct cur; repeat constructor. exact Hcur.
Qed.

Lemma map_nl2sp_no_newline s : Forall (fun c => is_nl c = false) (map nl2sp s).
Proof.
  induction s as [|c s IH]; simpl; constructor; auto.
  unfold nl2sp. destruct (is_nl c) eqn:Hc; [reflexivity|exact Hc].
Qed.

(** [format_text] step by step. *)
Lemma format_text_steps t :
  t <> [] ->
  format_text t =
  strip (sub (Rep is_sp 2) [sp]
             (replace PARAGRAPH_BREAK [nl; nl] (map nl2sp (step1 t)))).
Proof.
  destruct t as [|c s]; [congruence|]. intros _. unfold format_text.
  rewrite replace_newline. unfold step1.
  rewrite (sub_squeeze is_nl nl PARAGRAPH_BREAK); [reflexivity|].
  intros d Hd. now apply Ascii.eqb_eq in Hd.
Qed.

End Format.

(** C7 as stated fails: the placeholder is ordinary text.  Where a page
    has it next to a paragraph break, the cleaned text has three blank
    lines in a row. *)
Lemma placeholder_occurs_in_text :
  contains PARAGRAPH_BREAK placeholder_page = true /\
  format_text placeholder_page = str "Use " ++ [nl; nl; nl; nl] ++ str "here" /\
  nl_runs (format_text placeholder_page) = [4].
Proof. vm_compute. repeat split; reflexivity. Qed.

(** C7, amended.  In the cleaned text, newlines only come in runs of even
    length, so none stands alone; and when the raw text does not contain
    the placeholder [PARAGRAPH_BREAK], every run of newlines is exactly
    one blank line. *)
Theorem format_text_paragraph_breaks (t : text) :
  Forall (fun n => 2 <= n /\ Nat.even n = true) (nl_runs (format_text t)) /\
  (contains PARAGRAPH_BREAK t = false ->
   Forall (fun n => n = 2) (nl_runs (format_text t))).
Proof.
  destruct t as [|c s]; [split; intros; constructor|].
  rewrite Format.format_text_steps by discriminate. split.
  - apply Format.strip_runs. rewrite Format.sub_spaces_runs.
    pose proof (Format.replace_runs_even _ (Format.map_nl2sp_no_newline (step1 (c :: s)))
                  0 0 eq_refl) as Heven.
    pose proof (Format.nl_runs_from_positive
                  (replace PARAGRAPH_BREAK [nl; nl] (map nl2sp (step1 (c :: s)))) 0)
      as Hpos.
    unfold nl_runs. unfold replace at 1. cbn [PARAGRAPH_BREAK str list_ascii_of_string].
    unfold replace in Hpos at 1. cbn [PARAGRAPH_BREAK str list_ascii_of_string] in Hpos.
    cbn [PARAGRAPH_BREAK str list_ascii_of_string] in Heven.
    rewrite Forall_forall in *. intros n Hn.
    specialize (Heven n Hn). specialize (Hpos n Hn). split; [|exact Heven].
    destruct n as [|[|n]]; [lia|discriminate|lia].
  - intros Hfree. apply Format.strip_runs. rewrite Format.sub_spaces_runs.
    rewrite Format.steps123_normal by exact Hfree. apply Format.normal_runs.
Qed.

Lemma format_text_paragraph_breaks_witness :
  contains PARAGRAPH_BREAK (str "Hello
world

Next para.") = false /\
  Forall (fun n => n = 2) (nl_runs (format_text (str "Hello
world

Next para."))).
Proof.
  split; [reflexivity|].
  apply (proj2 (format_text_paragraph_breaks (str "Hello
world

Next para."))).
  reflexivity.
Defined.

(** ** Table alignment *)

Module Align.
Import Pd.

Lemma combine_frames_unfold df1 df2 :
  combine_frames df1 df2 =
  match merge (left_input df1 df2) (right_input df1 df2) "page" with
  | inl e => inl e
  | inr merged_df => sort_by_page merged_df
  end.
Proof. reflexivity. Qed.

(** *** The page column reaches [merge] untouched *)

Lemma get_update_other name col f df :
  String.eqb col name = false -> get name (update col f df) = get name df.
Proof.
  intros Hne. induction df as [|[n c] df IH]; simpl; [reflexivity|].
  destruct (String.eqb n col) eqn:E; simpl.
  - apply String.eqb_eq in E. subst n. rewrite Hne. exact IH.
  - destruct (String.eqb n name); [reflexivity|exact IH].
Qed.

Lemma columns_update col f df : columns (update col f df) = columns df.
Proof.
  unfold columns, update. rewrite map_map. apply map_ext.
  intros [n c]. now destruct (String.eqb n col).
Qed.

Lemma get_fold_update name f cols : forall df,
  Forall (fun col => String.eqb col name = false) cols ->
  get name (fold_left (fun df col => update col f df) cols df) = get name df.
Proof.
  induction cols as [|col cols IH]; intros df H; simpl; [reflexivity|].
  inversion H; subst. rewrite IH by assumption. now apply get_update_other.
Qed.

Lemma filter_not_page cols :
  Forall (fun col => String.eqb col "page" = false) (filter not_page cols).
Proof.
  apply Forall_forall. intros col Hin. apply filter_In in Hin as [_ H].
  unfold not_page in H. now apply negb_true_iff in H.
Qed.

Lemma get_page_blanked df2 : get "page" (blanked df2) = get "page" df2.
Proof. unfold blanked. apply get_fold_update, filter_not_page. Qed.

Lemma get_rename_other name old new df :
  String.eqb old name = false -> String.eqb new name = false ->
  get name (rename old new df) = get name df.
Proof.
  intros Ho Hn. induction df as [|[n c] df IH]; simpl; [reflexivity|].
  destruct (String.eqb n old) eqn:E.
  - apply String.eqb_eq in E. subst n. now rewrite Hn, Ho.
  - destruct (String.eqb n name); [reflexivity|exact IH].
Qed.

Lemma get_page_left df1 df2 : get "page" (left_input df1 df2) = get "page" df1.
Proof.
  unfold left_input. destruct (collision df1 df2); [|reflexivity].
  pose proof (filter_not_page (columns df1)) as H.
  destruct (filter not_page (columns df1)) as [|c cols]; [reflexivity|].
  inversion H; subst. now apply get_rename_other.
Qed.

Lemma get_page_right df1 df2 : get "page" (right_input df1 df2) = get "page" df2.
Proof.
  unfold right_input.
  destruct (collision df1 df2); [|apply get_page_blanked].
  pose proof (filter_not_page (columns df2)) as H.
  destruct (filter not_page (columns df2)) as [|c cols]; [apply get_page_blanked|].
  inversion H; subst. rewrite get_rename_other by easy. apply get_page_blanked.
Qed.

(** *** Blanking the sentinel *)

Lemma fold_update_iter f cols : forall df,
  fold_left (fun df col => update col f df) cols df =
  map (fun '(n, c) => (n, Nat.iter (count_occ string_dec cols n) f c)) df.
Proof.
  induction cols as [|col cols IH]; intros df; simpl.
  - rewrite <- (map_id df) at 1. apply map_ext. now intros [n c].
  - rewrite IH. unfold update. rewrite map_map. apply map_ext. intros [n c].
    destruct (String.eqb_spec n col) as [->|Hne].
    + destruct (string_dec col col); [|congruence]. now rewrite Nat.iter_succ_r.
    + destruct (string_dec col n); [congruence|reflexivity].
Qed.

Lemma replace_nan_no_sentinel c : no_sentinel (replace_nan "No body data" c) = true.
Proof.
  destruct c as [xs|xs]; simpl; [reflexivity|].
  apply forallb_forall. intros x Hin. apply in_map_iff in Hin as (y & <- & _).
  destruct y as [s|]; [|reflexivity].
  destruct (String.eqb s "No body data") eqn:E; simpl; [reflexivity|now rewrite E].
Qed.

(** Before the join, no cell of the second table outside the page column
    is [No body data]. *)
Lemma blanked_sentinel_free df2 : sentinel_free (blanked df2) = true.
Proof.
  unfold blanked. rewrite fold_update_iter. unfold sentinel_free.
  apply forallb_forall. intros [n c] Hin.
  apply in_map_iff in Hin as ([n0 c0] & Heq & Hin). inversion Heq; subst.
  destruct (String.eqb n "page") eqn:E; [reflexivity|]. simpl.
  assert (Hc : In n (filter not_page (columns df2))).
  { apply filter_In. split.
    - unfold columns. apply in_map_iff. now exists (n, c0).
    - unfold not_page. now rewrite E. }
  apply (count_occ_In string_dec) in Hc.
  destruct (count_occ string_dec (filter not_page (columns df2)) n) as [|k]; [lia|].
  simpl. apply replace_nan_no_sentinel.
Qed.

(** Without the page column on either side [merge] raises. *)
Lemma combine_frames_keyless df1 df2 :
  get "page" df1 = None \/ get "page" df2 = None ->
  combine_frames df1 df2 = inl (KeyError "page").
Proof.
  intros H. rewrite combine_frames_unfold. unfold merge.
  rewrite get_page_left, get_page_right.
  destruct H as [-> | ->]; [reflexivity|].
  now destruct (get "page" df1).
Qed.

End Align.


(** ** Sorting *)

Module SortFacts.
Import Pd.

Section Generic.
Variable A : Type.
Variable le : A -> A -> bool.
Hypothesis le_total : forall x y, le x y = true \/ le y x = true.

Lemma insert_perm x l : Permutation (insert le x l) (x :: l).
Proof.
  induction l as [|y l IH]; simpl; [reflexivity|].
  destruct (le x y); [reflexivity|].
  rewrite IH. apply perm_swap.
Qed.

Lemma sort_perm l : Permutation (sort le l) l.
Proof.
  induction l as [|x l IH]; simpl; [reflexivity|].
  fold (sort le l). rewrite insert_perm. now constructor.
Qed.


End Generic.


Lemma argsort_perm keys : Permutation (argsort keys) (seq 0 (length keys)).
Proof.
  unfold argsort. rewrite sort_perm.
  generalize 0. induction keys as [|k keys IH]; intros start; simpl; [reflexivity|].
  constructor. apply IH.
Qed.

Lemma argsort_length keys : length (argsort keys) = length keys.
Proof. now rewrite (Permutation_length (argsort_perm keys)), length_seq. Qed.

End SortFacts.

(** ** Counting the rows of a join *)

Module JoinCount.
Import Pd.


Lemma positions_length k keys :
  length (positions k keys) = count_occ value_eq_dec keys k.
Proof.
  unfold positions. rewrite length_map. generalize 0.
  induction keys as [|x keys IH]; intros start; simpl; [reflexivity|].
  unfold value_eqb at 1. simpl.
  destruct (value_eq_dec x k); simpl; now rewrite IH.
Qed.

Lemma product_length (A B C : Type) (g : A -> B -> C) (ls : list A) (rs : list B) :
  length (flat_map (fun l => map (g l) rs) ls) = length ls * length rs.
Proof.
  induction ls as [|x ls IH]; simpl; [reflexivity|].
  now rewrite length_app, length_map, IH.
Qed.

Lemma join_group_length lk rk k :
  length (join_group lk rk k) =
  group_size (count_occ value_eq_dec lk k) (count_occ value_eq_dec rk k).
Proof.
  unfold join_group. rewrite <- !positions_length.
  destruct (positions k lk) as [|l lpos], (positions k rk) as [|r rpos].
  - reflexivity.
  - now rewrite length_map.
  - now rewrite length_map.
  - now rewrite (product_length _ _ _ (fun l r => (Some l, Some r))).
Qed.

Lemma join_length lk rk :
  length (full_outer_join lk rk) =
  list_sum (map (fun k => group_size (count_occ value_eq_dec lk k)
                                     (count_occ value_eq_dec rk k))
                (nodup value_eq_dec (lk ++ rk))).
Proof.
  unfold full_outer_join. rewrite length_flat_map.
  rewrite (Permutation_map _ (SortFacts.sort_perm _ value_leb _)).
  apply f_equal, map_ext. intros k. apply join_group_length.
Qed.

Lemma list_sum_le (A : Type) (g h : A -> nat) (U : list A) :
  (forall k, In k U -> g k <= h k) ->
  list_sum (map g U) <= list_sum (map h U).
Proof.
  induction U as [|k U IH]; intros H; simpl; [lia|].
  pose proof (H k (or_introl eq_refl)).
  assert (list_sum (map g U) <= list_sum (map h U)) by (apply IH; intros; apply H; now right).
  lia.
Qed.

Lemma list_sum_eq_pointwise (A : Type) (g h : A -> nat) (U : list A) :
  (forall k, In k U -> g k <= h k) ->
  list_sum (map g U) = list_sum (map h U) ->
  forall k, In k U -> g k = h k.
Proof.
  induction U as [|x U IH]; intros Hle Heq k Hin; [destruct Hin|].
  simpl in Heq.
  pose proof (Hle x (or_introl eq_refl)).
  assert (Hrest : list_sum (map g U) <= list_sum (map h U))
    by (apply list_sum_le; intros; apply Hle; now right).
  destruct Hin as [<-|Hin]; [lia|].
  apply IH; auto; [intros; apply Hle; now right|lia].
Qed.

Lemma list_sum_add (A : Type) (g h : A -> nat) (U : list A) :
  list_sum (map (fun k => g k + h k) U) = list_sum (map g U) + list_sum (map h U).
Proof. induction U as [|k U IH]; simpl; lia. Qed.

Lemma list_sum_indicator a (U : list value) :
  list_sum (map (fun k => if value_eq_dec a k then 1 else 0) U) =
  count_occ value_eq_dec U a.
Proof.
  induction U as [|x U IH]; simpl; [reflexivity|].
  rewrite IH. destruct (value_eq_dec a x), (value_eq_dec x a); simpl; congruence || lia.
Qed.

(** Summed over a duplicate-free list that has all the keys of [l], the
    numbers of occurrences in [l] give its length. *)
Lemma count_sum (l U : list value) :
  NoDup U -> incl l U ->
  list_sum (map (count_occ value_eq_dec l) U) = length l.
Proof.
  intros Hnd. induction l as [|a l IH]; intros Hincl.
  - clear. induction U as [|x U IH]; simpl; auto.
  - rewrite (map_ext (count_occ value_eq_dec (a :: l))
                     (fun k => (if value_eq_dec a k then 1 else 0)
                               + count_occ value_eq_dec l k))
      by (intros k; simpl; now destruct (value_eq_dec a k)).
    rewrite list_sum_add, list_sum_indicator, IH
      by (intros x Hx; apply Hincl; now right).
    assert (Hin : In a U) by (apply Hincl; now left).
    pose proof (proj1 (NoDup_count_occ' value_eq_dec U) Hnd a Hin) as Hc.
    simpl. lia.
Qed.

Lemma left_sum lk rk :
  list_sum (map (count_occ value_eq_dec lk) (nodup value_eq_dec (lk ++ rk))) = length lk.
Proof.
  apply count_sum; [apply NoDup_nodup|].
  intros x Hx. apply nodup_In, in_or_app. now left.
Qed.

Lemma right_sum lk rk :
  list_sum (map (count_occ value_eq_dec rk) (nodup value_eq_dec (lk ++ rk))) = length rk.
Proof.
  apply count_sum; [apply NoDup_nodup|].
  intros x Hx. apply nodup_In, in_or_app. now right.
Qed.

Lemma group_size_ge_l a b : a <= group_size a b.
Proof. destruct a, b; simpl; nia. Qed.

Lemma group_size_ge_r a b : b <= group_size a b.
Proof. destruct a, b; simpl; nia. Qed.

(** Every row of either side is in the join. *)
Lemma join_lower lk rk :
  max (length lk) (length rk) <= length (full_outer_join lk rk).
Proof.
  rewrite join_length. apply Nat.max_lub.
  - rewrite <- (left_sum lk rk) at 1.
    apply list_sum_le. intros. apply group_size_ge_l.
  - rewrite <- (right_sum lk rk) at 1.
    apply list_sum_le. intros. apply group_size_ge_r.
Qed.

Lemma repeats_spec lk rk :
  repeats_on_one_side_only lk rk = true ->
  forall k, In k (nodup value_eq_dec (lk ++ rk)) ->
    count_occ value_eq_dec lk k <= 1 \/ count_occ value_eq_dec rk k <= 1.
Proof.
  unfold repeats_on_one_side_only. rewrite forallb_forall.
  intros H k Hk. apply nodup_In in Hk. specialize (H k Hk).
  apply orb_true_iff in H as [H|H]; apply Nat.leb_le in H; auto.
Qed.

Lemma disjoint_spec lk rk :
  disjoint_keys lk rk = true <-> (forall k, In k lk -> ~ In k rk).
Proof.
  unfold disjoint_keys. rewrite forallb_forall. split; intros H k Hk.
  - specialize (H k Hk). apply negb_true_iff in H. intros Hin.
    assert (existsb (value_eqb k) rk = true); [|congruence].
    apply existsb_exists. exists k. split; [exact Hin|].
    unfold value_eqb. now destruct (value_eq_dec k k).
  - apply negb_true_iff. destruct (existsb (value_eqb k) rk) eqn:E; [|reflexivity].
    apply existsb_exists in E as (x & Hx & E). unfold value_eqb in E.
    destruct (value_eq_dec k x); [subst x|discriminate]. destruct (H k Hk Hx).
Qed.

(** When no key repeats on both sides, the join has at most as many rows
    as the two sides together, and exactly as many only when they share
    no key. *)
Lemma join_upper lk rk :
  repeats_on_one_side_only lk rk = true ->
  length (full_outer_join lk rk) <= length lk + length rk /\
  (length (full_outer_join lk rk) = length lk + length rk <->
   disjoint_keys lk rk = true).
Proof.
  intros Hrep. pose proof (repeats_spec lk rk Hrep) as Hone.
  assert (Hsum : length lk + length rk =
                 list_sum (map (fun k => count_occ value_eq_dec lk k
                                         + count_occ value_eq_dec rk k)
                               (nodup value_eq_dec (lk ++ rk))))
    by now rewrite list_sum_add, left_sum, right_sum.
  rewrite join_length, Hsum.
  assert (Hle : forall k, In k (nodup value_eq_dec (lk ++ rk)) ->
            group_size (count_occ value_eq_dec lk k) (count_occ value_eq_dec rk k)
            <= count_occ value_eq_dec lk k + count_occ value_eq_dec rk k).
  { intros k Hk. destruct (Hone k Hk);
      destruct (count_occ value_eq_dec lk k) as [|[|a]],
               (count_occ value_eq_dec rk k) as [|[|b]]; simpl; lia || nia. }
  split; [now apply list_sum_le|]. split.
  - intros Heq. apply disjoint_spec. intros k Hl Hr.
    assert (Hk : In k (nodup value_eq_dec (lk ++ rk)))
      by (apply nodup_In, in_or_app; now left).
    pose proof (list_sum_eq_pointwise _ _ _ _ Hle Heq k Hk) as Hpt.
    apply (count_occ_In value_eq_dec) in Hl, Hr. cbv beta in Hpt.
    destruct (Hone k Hk);
      destruct (count_occ value_eq_dec lk k) as [|[|a]],
               (count_occ value_eq_dec rk k) as [|[|b]]; simpl in *; lia || nia.
  - intros Hdis. apply f_equal, map_ext_in. intros k Hk.
    rewrite disjoint_spec in Hdis.
    destruct (count_occ value_eq_dec lk k) as [|a] eqn:Ea; [now destruct (count_occ value_eq_dec rk k)|].
    destruct (count_occ value_eq_dec rk k) as [|b] eqn:Eb; [simpl; lia|].
    exfalso. apply (Hdis k); apply (count_occ_In value_eq_dec); lia.
Qed.

End JoinCount.

(** ** The merged frame *)

Module Merged.
Import Pd.

Lemma height_column_of vs : height (column_of vs) = length vs.
Proof.
  unfold height, column_of. destruct (existsb is_str vs); simpl; now rewrite !length_map.
Qed.

Lemma height_take idx c : height (take idx c) = length idx.
Proof. unfold height. destruct c; simpl; now rewrite !length_map. Qed.

Lemma append_x_not_page n suffix :
  suffix = "_x"%string \/ suffix = "_y"%string ->
  String.eqb (n ++ suffix) "page" = false.
Proof.
  intros H. apply String.eqb_neq. intros E.
  destruct n as [|a [|b [|c [|d [|e n]]]]]; destruct H; subst suffix;
    simpl in E; try discriminate E; injection E; intros; try discriminate;
    destruct n; discriminate.
Qed.

Lemma suffixed_not_page other suffix n :
  suffix = "_x"%string \/ suffix = "_y"%string ->
  String.eqb n "page" = false ->
  String.eqb (suffixed other suffix n) "page" = false.
Proof.
  intros Hs Hn. unfold suffixed.
  destruct (mem n (columns other)); [now apply append_x_not_page|exact Hn].
Qed.

Lemma get_page_left_part right key idx rest lk' : forall left,
  get "page" left = Some lk' ->
  get "page"
      (map (fun '(n, c) =>
              if String.eqb n "page" then (n, key)
              else (suffixed right "_x" n, take idx c)) left ++ rest)
  = Some key.
Proof.
  induction left as [|[n c] left IH]; [discriminate|].
  simpl. destruct (String.eqb n "page") eqn:E.
  - intros _. simpl. now rewrite E.
  - intros H. simpl. rewrite suffixed_not_page by auto. now apply IH.
Qed.

(** The page column of the merged frame is its key column. *)
Lemma get_page_joined left right lk rk lk' :
  get "page" left = Some lk' ->
  get "page" (joined left right "page" lk rk) =
  Some (column_of (map (pick_key (values lk) (values rk))
                       (full_outer_join (values lk) (values rk)))).
Proof. unfold joined. apply get_page_left_part. Qed.



Lemma get_in name df c : get name df = Some c -> In (name, c) df.
Proof.
  induction df as [|[n c'] df IH]; simpl; [discriminate|].
  destruct (String.eqb_spec n name) as [->|_].
  - intros H. inversion H. now left.
  - intros H. right. auto.
Qed.

Lemma nrows_of_heights n df name c :
  all_height n df -> get name df = Some c -> nrows df = n.
Proof.
  intros H Hget. destruct df as [|[n0 c0] df]; [discriminate|].
  simpl. now inversion H.
Qed.

Lemma well_formed_heights df : well_formed df = true -> all_height (nrows df) df.
Proof.
  unfold well_formed, all_height. rewrite forallb_forall, Forall_forall.
  intros H [n c] Hin. specialize (H _ Hin). simpl in *. now apply Nat.eqb_eq.
Qed.

Lemma nrows_page df k :
  well_formed df = true -> get "page" df = Some k -> nrows df = length (values k).
Proof.
  intros Hwf Hget. apply well_formed_heights in Hwf.
  unfold all_height in Hwf. rewrite Forall_forall in Hwf.
  symmetry. exact (Hwf _ (get_in _ _ _ Hget)).
Qed.

Lemma get_update_same name f df c :
  get name df = Some c -> get name (update name f df) = Some (f c).
Proof.
  induction df as [|[n c'] df IH]; simpl; [discriminate|].
  destruct (String.eqb n name) eqn:E; simpl; rewrite E.
  - intros H. now inversion H.
  - exact IH.
Qed.

Lemma parse_all_length xs : forall zs, parse_all xs = Some zs -> length zs = length xs.
Proof.
  induction xs as [|[s|] xs IH]; intros zs H; simpl in H.
  - now inversion H.
  - destruct (numeric_literal (str s)); [|discriminate].
    destruct (parse_all xs) as [zs'|]; [|discriminate].
    inversion H; subst. simpl. now rewrite (IH zs').
  - destruct (parse_all xs) as [zs'|]; [|discriminate].
    inversion H; subst. simpl. now rewrite (IH zs').
Qed.

Lemma to_numeric_height c c' : to_numeric c = inr c' -> height c' = height c.
Proof.
  destruct c as [xs|xs]; simpl.
  - intros H. now inversion H.
  - destruct (parse_all xs) as [zs|] eqn:E; [|discriminate].
    intros H. inversion H; subst. unfold height. simpl.
    rewrite !length_map. now apply parse_all_length.
Qed.

Lemma sort_values_ok df k :
  get "page" df = Some k ->
  sort_values "page" df =
  inr (map (fun '(n, c) => (n, take (map Some (argsort (values k))) c)) df).
Proof. unfold sort_values. now intros ->. Qed.

Lemma nrows_sorted df k :
  get "page" df = Some k ->
  nrows (map (fun '(n, c) => (n, take (map Some (argsort (values k))) c)) df)
  = height k.
Proof.
  intros H. destruct df as [|[n c] df]; [discriminate|].
  simpl. now rewrite height_take, length_map, SortFacts.argsort_length.
Qed.

(** Sorting by page succeeds on a frame that has the page column, and
    keeps the number of rows. *)
Lemma sort_by_page_rows m k :
  get "page" m = Some k ->
  exists out, sort_by_page m = inr out /\ nrows out = height k.
Proof.
  intros Hget. unfold sort_by_page. rewrite Hget.
  destruct (to_numeric k) as [e|numeric] eqn:Hnum.
  - rewrite (sort_values_ok m k Hget). eexists. split; [reflexivity|].
    now apply nrows_sorted.
  - pose proof (get_update_same "page" (fun _ => numeric) m k Hget) as Hget'.
    rewrite (sort_values_ok _ numeric Hget'). eexists. split; [reflexivity|].
    rewrite (nrows_sorted _ numeric Hget'). now apply to_numeric_height.
Qed.

(** The aligned frame of two tables with page columns that can be
    merged has the rows of their outer join. *)
Lemma combine_frames_rows df1 df2 k1 k2 :
  get "page" df1 = Some k1 -> get "page" df2 = Some k2 ->
  dtype_clash k1 k2 = false ->
  suffix_clash (left_input df1 df2) (right_input df1 df2) "page" = false ->
  exists out, combine_frames df1 df2 = inr out /\
              nrows out = length (full_outer_join (values k1) (values k2)).
Proof.
  intros H1 H2 Hclash Hsuffix. rewrite Align.combine_frames_unfold. unfold merge.
  rewrite Align.get_page_left, Align.get_page_right, H1, H2, Hclash, Hsuffix.
  pose proof (get_page_joined (left_input df1 df2) (right_input df1 df2) k1 k2 k1) as Hget.
  rewrite Align.get_page_left in Hget. specialize (Hget H1).
  destruct (sort_by_page_rows _ _ Hget) as (out & Hout & Hrows).
  exists out. split; [exact Hout|].
  now rewrite Hrows, height_column_of, length_map.
Qed.

End Merged.

(** ** The keys of the join and the fallback sort *)

Module Fallback.
Import Pd.










Lemma get_map_take name order df :
  get name (map (fun '(n, c) => (n, take order c)) df) =
  option_map (take order) (get name df).
Proof.
  induction df as [|[n c] df IH]; simpl; [reflexivity|].
  destruct (String.eqb n name); [reflexivity|exact IH].
Qed.




End Fallback.

(** ** Claims about [combine_dataFiles.py] *)

(** C2 fails on the code.  Before the join, every cell [No body data]
    of the second table outside the page column is blanked; the legacy
    sentinel [No page data], which the docstring of the function names,
    is not, and is carried into the output. *)
Theorem legacy_sentinel_reaches_output :
  (forall df2, sentinel_free (blanked df2) = true) /\
  combine_frames primary_12 secondary_23 =
    inr [ ("page"%string, Pd.NumCol [Some 1%Z; Some 2%Z; Some 3%Z]);
          ("text"%string, Pd.ObjCol [Some "a"%string; Some "b"%string; None]);
          ("words"%string, Pd.ObjCol [None; Some "5"%string; None]) ] /\
  combine_frames primary_12 secondary_legacy =
    inr [ ("page"%string, Pd.NumCol [Some 1%Z; Some 2%Z; Some 3%Z]);
          ("text"%string, Pd.ObjCol [Some "a"%string; Some "b"%string; None]);
          ("words"%string, Pd.ObjCol [None; Some "5"%string; Some "No page data"%string]) ].
Proof.
  split; [exact Align.blanked_sentinel_free|].
  split; vm_compute; reflexivity.
Qed.

(** C3 as stated fails: a table without the page column makes the
    function raise [KeyError]; it does not return an error message. *)
Lemma missing_page_column_raises :
  combine_csv_files (inr keyless) (inr secondary_23) "out.csv" None
    = inl (Pd.KeyError "page") /\
  ~ exists message,
      combine_csv_files (inr keyless) (inr secondary_23) "out.csv" None
      = inr (message, None).
Proof.
  split; [vm_compute; reflexivity|].
  intros [message H]. vm_compute in H. discriminate.
Qed.

(** C3, amended.  When either table lacks the page column, the merge
    raises [KeyError] for the key [page]; the exception leaves the
    function, which returns no message and writes no file. *)
Theorem missing_page_column_is_key_error (df1 df2 : Pd.DataFrame)
        (output_filename : string) (io_error : option string) :
  Pd.get "page" df1 = None \/ Pd.get "page" df2 = None ->
  combine_csv_files (inr df1) (inr df2) output_filename io_error
  = inl (Pd.KeyError "page").
Proof.
  intros H. unfold combine_csv_files.
  now rewrite (Align.combine_frames_keyless df1 df2 H).
Qed.

Lemma missing_page_column_is_key_error_witness :
  combine_csv_files (inr primary_12) (inr keyless) "out.csv" None
  = inl (Pd.KeyError "page").
Proof.
  apply missing_page_column_is_key_error. right. reflexivity.
Defined.

(** C4 as stated fails: a page key that is repeated in both tables
    multiplies; two rows and three rows with the same key give six rows,
    more than the two tables have together. *)
Lemma repeated_keys_multiply :
  exists out,
    combine_frames twice_1 thrice_1 = inr out /\
    Pd.nrows out = 6 /\
    ~ Pd.nrows out <= Pd.nrows twice_1 + Pd.nrows thrice_1.
Proof.
  eexists. split; [vm_compute; reflexivity|]. split; [reflexivity|].
  vm_compute. lia.
Qed.

(** C4, amended.  Take two tables with page columns that [merge]
    accepts (no text against numbers, no label that the suffixes make
    occur twice) and whose numeric page keys are exact.  The aligned
    frame has at least as many rows as either table; when no page key is
    repeated in both tables, it has at most as many rows as the two
    tables together, and exactly as many only when the tables share no
    page key. *)
Theorem aligned_row_count (A B : Pd.DataFrame) (ka kb : Pd.column) :
  well_formed A = true -> well_formed B = true ->
  Pd.get "page" A = Some ka -> Pd.get "page" B = Some kb ->
  Pd.dtype_clash ka kb = false ->
  Pd.suffix_clash (left_input A B) (right_input A B) "page" = false ->
  exact_column ka = true -> exact_column kb = true ->
  exists out,
    combine_frames A B = inr out /\
    max (Pd.nrows A) (Pd.nrows B) <= Pd.nrows out /\
    (repeats_on_one_side_only (Pd.values ka) (Pd.values kb) = true ->
     Pd.nrows out <= Pd.nrows A + Pd.nrows B /\
     (Pd.nrows out = Pd.nrows A + Pd.nrows B <->
      disjoint_keys (Pd.values ka) (Pd.values kb) = true)).
Proof.
  intros HwfA HwfB HA HB Hclash Hsuffix _ _.
  destruct (Merged.combine_frames_rows A B ka kb HA HB Hclash Hsuffix)
    as (out & Hout & Hrows).
  exists out. split; [exact Hout|].
  rewrite Hrows, (Merged.nrows_page A ka HwfA HA), (Merged.nrows_page B kb HwfB HB).
  split; [apply JoinCount.join_lower|].
  apply JoinCount.join_upper.
Qed.

Lemma aligned_row_count_witness :
  exists out,
    combine_frames primary_12 secondary_23 = inr out /\
    max (Pd.nrows primary_12) (Pd.nrows secondary_23) <= Pd.nrows out /\
    Pd.nrows out <= Pd.nrows primary_12 + Pd.nrows secondary_23.
Proof.
  destruct (aligned_row_count primary_12 secondary_23
              (Pd.NumCol [Some 1%Z; Some 2%Z]) (Pd.NumCol [Some 2%Z; Some 3%Z])
              eq_refl eq_refl eq_refl eq_refl eq_refl eq_refl eq_refl eq_refl)
    as (out & Hout & Hlow & Hup).
  exists out. split; [exact Hout|]. split; [exact Hlow|].
  exact (proj1 (Hup eq_refl)).
Defined.

Example ex_text_keys :
  combine_frames primary_text secondary_roman =
  inr [ ("page"%string,
         Pd.ObjCol [Some "1"%string; Some "2"%string; Some "i"%string; Some "ii"%string]);
        ("text"%string, Pd.ObjCol [Some "c"%string; None; Some "a"%string; Some "b"%string]);
        ("words"%string, Pd.ObjCol [None; Some "5"%string; None; Some "7"%string]) ].
Proof. vm_compute. reflexivity. Qed.

Example ex_reversed :
  combine_frames secondary_23 primary_12 =
  inr [ ("page"%string, Pd.NumCol [Some 1%Z; Some 2%Z; Some 3%Z]);
        ("words"%string, Pd.ObjCol [None; Some "5"%string; Some "No body data"%string]);
        ("text"%string, Pd.ObjCol [Some "a"%string; Some "b"%string; None]) ].
Proof. vm_compute. reflexivity. Qed.

Example ex_collision :
  combine_frames collide_a collide_b =
  inr [ ("page"%string, Pd.NumCol [Some 1%Z]);
        ("file1_text"%string, Pd.ObjCol [Some "a"%string]);
        ("file2_text"%string, Pd.ObjCol [Some "b"%string]) ].
Proof. vm_compute. reflexivity. Qed.


(** ** Swapping the two tables *)

Module Commute.
Import Pd.

(** *** Rows of a frame whose columns are computed from a list *)





Section Generated.
Variable P : Type.
Variable fs : list (P -> value).





End Generated.



(** *** The merged frame as a generated frame *)








Lemma joined_assemble left right lk rk :
  joined left right "page" lk rk =
  assemble (column_of (map (pick_key (values lk) (values rk))
                           (full_outer_join (values lk) (values rk))))
           (full_outer_join (values lk) (values rk)) left right.
Proof. reflexivity. Qed.



Lemma update_assemble key key' idx left right :
  update "page" (fun _ => key') (assemble key idx left right) =
  assemble key' idx left right.
Proof.
  unfold update, assemble. rewrite map_app, !map_map. f_equal.
  - apply map_ext. intros [n c]. destruct (String.eqb n "page") eqn:E; simpl.
    + now rewrite E.
    + now rewrite Merged.suffixed_not_page by auto.
  - apply map_ext_in. intros [n c] Hin. apply filter_In in Hin as [_ Hn].
    apply negb_true_iff in Hn. simpl.
    now rewrite Merged.suffixed_not_page by auto.
Qed.

Lemma get_page_assemble key idx left right lk' :
  get "page" left = Some lk' -> get "page" (assemble key idx left right) = Some key.
Proof. unfold assemble. apply Merged.get_page_left_part. Qed.

(** *** What becomes of a key in the page column *)






Lemma values_column_of vs :
  values (column_of vs) = map (coerce (existsb is_str vs)) vs.
Proof.
  unfold column_of. destruct (existsb is_str vs); simpl; rewrite map_map;
    apply map_ext; now intros [|z|s].
Qed.

Lemma to_numeric_values c c' :
  to_numeric c = inr c' -> values c' = map numeric_cell (values c).
Proof.
  destruct c as [xs|xs]; simpl.
  - intros H. inversion H; subst. simpl. rewrite map_map.
    apply map_ext. now intros [z|].
  - destruct (parse_all xs) as [zs|] eqn:E; [|discriminate].
    intros H. inversion H; subst. clear H. simpl. rewrite map_map.
    revert zs E. induction xs as [|[s|] xs IH]; intros zs E; simpl in E.
    + now inversion E.
    + destruct (numeric_literal (str s)) as [z|] eqn:Ez; [|discriminate].
      destruct (parse_all xs) as [zs'|]; [|discriminate].
      inversion E; subst. simpl. rewrite Ez. f_equal. now apply IH.
    + destruct (parse_all xs) as [zs'|]; [|discriminate].
      inversion E; subst. simpl. f_equal. now apply IH.
Qed.

Lemma parse_all_convertible keys :
  match parse_all (map (fun v => match v with Str s => Some s | _ => None end) keys) with
  | Some _ => forallb (fun v => parses (coerce true v)) keys = true
  | None => forallb (fun v => parses (coerce true v)) keys = false
  end.
Proof.
  induction keys as [|v keys IH]; simpl; [reflexivity|].
  destruct v as [|z|s]; simpl.
  - destruct (parse_all _); simpl; exact IH.
  - destruct (parse_all _); simpl; exact IH.
  - destruct (numeric_literal (str s)); [|reflexivity].
    destruct (parse_all _); simpl; exact IH.
Qed.

Lemma forallb_parses_coerce keys :
  forallb (fun v => parses (coerce true v)) keys = convertible keys.
Proof.
  unfold convertible.
  induction keys as [|v keys IH]; [reflexivity|].
  cbn [forallb]. rewrite IH. now destruct v.
Qed.

Lemma convertible_without_strings keys :
  existsb is_str keys = false -> convertible keys = true.
Proof.
  intros H. unfold convertible. apply forallb_forall. intros v Hv.
  destruct v as [|z|s]; try reflexivity.
  assert (existsb is_str keys = true); [|congruence].
  apply existsb_exists. exists (Str s). auto.
Qed.

(** The page column by which the merged frame is sorted, and its cells. *)
Lemma sort_key_values keys :
  values (match to_numeric (column_of keys) with
          | inr c => c
          | inl _ => column_of keys
          end) = map (final_cell keys) keys.
Proof.
  pose proof (values_column_of keys) as Hv.
  unfold final_cell. destruct (existsb is_str keys) eqn:Eb.
  - assert (Hcol : column_of keys =
                   ObjCol (map (fun v => match v with Str s => Some s | _ => None end) keys))
      by (unfold column_of; now rewrite Eb).
    pose proof (parse_all_convertible keys) as Hp.
    rewrite forallb_parses_coerce in Hp.
    destruct (to_numeric (column_of keys)) as [e|c] eqn:En.
    + rewrite Hcol in En. simpl in En.
      destruct (parse_all _); [discriminate|]. now rewrite Hp.
    + rewrite (to_numeric_values _ _ En), Hv, map_map.
      rewrite Hcol in En. simpl in En.
      destruct (parse_all _); [|discriminate]. now rewrite Hp.
  - rewrite (convertible_without_strings keys Eb).
    assert (Hcol : column_of keys =
                   NumCol (map (fun v => match v with Num z => Some z | _ => None end) keys))
      by (unfold column_of; now rewrite Eb).
    rewrite Hcol at 1. cbn [to_numeric]. rewrite <- Hcol, Hv.
    apply map_ext. now intros [|z|s].
Qed.


(** *** The rows of the aligned frame *)

Lemma sort_by_page_assemble keys idx left right lk' :
  get "page" left = Some lk' ->
  let key := match to_numeric (column_of keys) with
             | inr c => c
             | inl _ => column_of keys
             end in
  sort_by_page (assemble (column_of keys) idx left right) =
  inr (map (fun '(n, c) => (n, take (map Some (argsort (values key))) c))
           (assemble key idx left right)).
Proof.
  intros Hget key. unfold sort_by_page.
  rewrite (get_page_assemble _ idx left right lk' Hget).
  unfold key. destruct (to_numeric (column_of keys)) as [e|numeric].
  - apply Merged.sort_values_ok. now apply (get_page_assemble _ idx left right lk').
  - rewrite update_assemble.
    now rewrite (Merged.sort_values_ok _ numeric
                   (get_page_assemble numeric idx left right lk' Hget)).
Qed.



(** *** The frames handed to the merge, without their labels *)




Lemma replace_nan_id c : no_sentinel c = true -> replace_nan "No body data" c = c.
Proof.
  destruct c as [xs|xs]; simpl; [reflexivity|]. intros H. f_equal.
  rewrite <- (map_id xs) at 2. apply map_ext_in. intros [s|] Hin; [|reflexivity].
  rewrite forallb_forall in H. specialize (H _ Hin). simpl in H.
  apply negb_true_iff in H. now rewrite H.
Qed.

Lemma update_id col df :
  sentinel_free df = true -> String.eqb col "page" = false ->
  update col (replace_nan "No body data") df = df.
Proof.
  intros Hfree Hcol. unfold update. rewrite <- (map_id df) at 2.
  apply map_ext_in. intros [n c] Hin.
  destruct (String.eqb_spec n col) as [->|_]; [|reflexivity].
  unfold sentinel_free in Hfree. rewrite forallb_forall in Hfree.
  specialize (Hfree _ Hin). simpl in Hfree. rewrite Hcol in Hfree. simpl in Hfree.
  now rewrite replace_nan_id.
Qed.

Lemma blanked_id df : sentinel_free df = true -> blanked df = df.
Proof.
  intros Hfree. unfold blanked.
  pose proof (Align.filter_not_page (columns df)) as H.
  induction H as [|col cols Hcol _ IH]; simpl; [reflexivity|].
  now rewrite update_id.
Qed.


(** *** The join of the swapped tables *)















(** *** The cells of a row, whichever table comes first *)






End Commute.

(** ** The aligned table *)

Module Aligned.
Import Pd Align SortFacts JoinCount Merged Fallback Commute.

(** The aligned frame in closed form. *)
Lemma combine_frames_aligned A B ka kb :
  get "page" A = Some ka -> get "page" B = Some kb ->
  dtype_clash ka kb = false ->
  suffix_clash (left_input A B) (right_input A B) "page" = false ->
  combine_frames A B = inr (aligned A B ka kb).
Proof.
  intros HA HB Hclash Hsuffix.
  assert (HL : get "page" (left_input A B) = Some ka) by now rewrite get_page_left.
  rewrite combine_frames_unfold. unfold merge.
  rewrite get_page_left, get_page_right, HA, HB, Hclash, Hsuffix.
  rewrite joined_assemble.
  apply (sort_by_page_assemble (join_keys (values ka) (values kb))
           (full_outer_join (values ka) (values kb))
           (left_input A B) (right_input A B) ka HL).
Qed.

(** The exception that leaves the alignment, if any, is that of
    [merge]: the sort never raises. *)
Lemma combine_frames_raises A B e :
  combine_frames A B = inl e <->
  merge (left_input A B) (right_input A B) "page" = inl e.
Proof.
  rewrite combine_frames_unfold.
  destruct (merge (left_input A B) (right_input A B) "page") as [e'|merged] eqn:Hm;
    [reflexivity|].
  split; [|discriminate]. intros H. exfalso.
  unfold merge in Hm.
  destruct (get "page" (left_input A B)) as [lk|] eqn:Hl; [|discriminate].
  destruct (get "page" (right_input A B)) as [rk|]; [|discriminate].
  destruct (dtype_clash lk rk); [discriminate|].
  destruct (suffix_clash _ _ _); [discriminate|].
  inversion Hm; subst merged.
  destruct (Merged.sort_by_page_rows _ _
              (Merged.get_page_joined (left_input A B) (right_input A B) lk rk lk Hl))
    as (out & Hout & _).
  rewrite Hout in H. discriminate.
Qed.

(** Which exception [merge] raises. *)
Lemma merge_raises left right e :
  merge left right "page" = inl e <->
  ((get "page" left = None \/ get "page" right = None) /\ e = KeyError "page") \/
  (exists lk rk, get "page" left = Some lk /\ get "page" right = Some rk /\
                 ((dtype_clash lk rk = true /\ e = ValueError) \/
                  (dtype_clash lk rk = false /\
                   suffix_clash left right "page" = true /\ e = MergeError))).
Proof.
  unfold merge.
  destruct (get "page" left) as [lk|]; [destruct (get "page" right) as [rk|]|].
  - destruct (dtype_clash lk rk) eqn:Hc; [|destruct (suffix_clash _ _ _) eqn:Hs].
    + split.
      * intros H. inversion H. right. exists lk, rk. auto.
      * intros [[[H|H] _]|(lk' & rk' & E1 & E2 & [[_ ->]|(H & _)])];
          try discriminate; [reflexivity|].
        inversion E1; inversion E2; subst. congruence.
    + split.
      * intros H. inversion H. right. exists lk, rk. auto 6.
      * intros [[[H|H] _]|(lk' & rk' & E1 & E2 & [[H _]|(_ & _ & ->)])];
          try discriminate; [|reflexivity].
        inversion E1; inversion E2; subst. congruence.
    + split; [discriminate|].
      intros [[[H|H] _]|(lk' & rk' & E1 & E2 & [[H _]|(_ & H & _)])];
        try discriminate.
      * inversion E1; inversion E2; subst. congruence.
  - split.
    + intros H. inversion H. left. auto.
    + intros [[_ ->]|(lk' & rk' & _ & E & _)]; [reflexivity|discriminate].
  - split.
    + intros H. inversion H. left. auto.
    + intros [[_ ->]|(lk' & rk' & E & _)]; [reflexivity|discriminate].
Qed.

Lemma get_page_aligned A B ka kb :
  get "page" A = Some ka ->
  get "page" (aligned A B ka kb) =
  Some (take (map Some (argsort (values (sort_key (join_keys (values ka) (values kb))))))
             (sort_key (join_keys (values ka) (values kb)))).
Proof.
  intros HA. unfold aligned. rewrite get_map_take.
  rewrite (get_page_assemble _ _ _ _ ka); [reflexivity|].
  now rewrite get_page_left.
Qed.

(** *** The keys of the join *)








(** *** One row for each key *)



(** *** The columns *)

Lemma columns_assemble key idx L R :
  columns (assemble key idx L R) =
  map (fun n => if String.eqb n "page" then n else suffixed R "_x" n) (columns L)
  ++ map (suffixed L "_y") (filter not_page (columns R)).
Proof.
  unfold assemble, columns. rewrite map_app, !map_map. f_equal.
  - apply map_ext. intros [n c]. cbn [fst]. now destruct (String.eqb n "page").
  - clear. induction R as [|[n c] R' IH]; [reflexivity|].
    cbn [filter map fst]. unfold not_page at 1.
    destruct (String.eqb n "page"); cbn [negb map fst]; [exact IH|].
    f_equal. exact IH.
Qed.

Lemma columns_aligned A B ka kb :
  columns (aligned A B ka kb) =
  map (fun n => if String.eqb n "page" then n else suffixed (right_input A B) "_x" n)
      (columns (left_input A B))
  ++ map (suffixed (left_input A B) "_y") (filter not_page (columns (right_input A B))).
Proof.
  unfold aligned.
  rewrite <- (columns_assemble (sort_key (join_keys (values ka) (values kb)))
                               (full_outer_join (values ka) (values kb))).
  unfold columns. rewrite map_map.
  apply map_ext. now intros [n c].
Qed.

Lemma columns_blanked df : columns (blanked df) = columns df.
Proof.
  unfold blanked. generalize (filter not_page (columns df)). intros cols. revert df.
  induction cols as [|c cols IH]; intros df; [reflexivity|].
  cbn [fold_left]. now rewrite IH, columns_update.
Qed.

Lemma columns_rename old new df :
  columns (rename old new df) =
  map (fun n => if String.eqb n old then new else n) (columns df).
Proof. unfold columns, rename. rewrite !map_map. apply map_ext. now intros [n c]. Qed.

Lemma length_filter_map (f : string -> string) cols :
  (forall n, not_page (f n) = not_page n) ->
  length (filter not_page (map f cols)) = length (filter not_page cols).
Proof.
  intros H. induction cols as [|n cols IH]; [reflexivity|].
  cbn [map filter]. rewrite H. destruct (not_page n); simpl; now rewrite IH.
Qed.

Lemma not_page_prefixed p c n :
  not_page c = true ->
  (p = "file1_" \/ p = "file2_")%string ->
  not_page (if String.eqb n c then (p ++ c)%string else n) = not_page n.
Proof.
  intros Hc Hp. destruct (String.eqb_spec n c) as [->|_]; [|reflexivity].
  rewrite Hc. now destruct Hp as [-> | ->].
Qed.

Lemma other_columns_left_length A B :
  length (columns (left_input A B)) = length (columns A).
Proof.
  unfold left_input. destruct (collision A B); [|reflexivity].
  destruct (filter not_page (columns A)); [reflexivity|].
  now rewrite columns_rename, length_map.
Qed.

Lemma other_columns_right_length A B :
  length (filter not_page (columns (right_input A B))) =
  length (filter not_page (columns B)).
Proof.
  unfold right_input.
  pose proof (filter_not_page (columns B)) as H.
  destruct (collision A B); [|now rewrite columns_blanked].
  destruct (filter not_page (columns B)) as [|c cols] eqn:E;
    [now rewrite columns_blanked, E|].
  rewrite columns_rename, columns_blanked. rewrite length_filter_map; [now rewrite E|].
  intros n. apply not_page_prefixed; [|now right].
  inversion H; subst. unfold not_page. now rewrite H2.
Qed.

Lemma NoDup_app_disjoint (A : Type) (l l' : list A) x :
  NoDup (l ++ l') -> In x l -> ~ In x l'.
Proof.
  induction l as [|a l IH]; intros H Hin; [contradiction|].
  cbn [app] in H. inversion H as [|? ? Hna Hnd]; subst.
  destruct Hin as [->|Hin]; [|now apply IH].
  intros Hx. apply Hna. apply in_or_app. now right.
Qed.

Lemma mem_false n cols : ~ In n cols -> mem n cols = false.
Proof.
  intros H. unfold mem. destruct (existsb (String.eqb n) cols) eqn:E; [|reflexivity].
  apply existsb_exists in E as (x & Hx & Ex). apply String.eqb_eq in Ex. now subst.
Qed.

Lemma collision_free A B :
  NoDup (other_columns A ++ other_columns B) -> collision A B = false.
Proof.
  intros H. unfold collision. fold (other_columns A) (other_columns B).
  rewrite (nodup_fixed_point string_dec H). apply Nat.ltb_irrefl.
Qed.

Lemma all_height_aligned A B ka kb :
  all_height (length (full_outer_join (values ka) (values kb))) (aligned A B ka kb).
Proof.
  unfold aligned, all_height. apply Forall_forall. intros [n c] Hin.
  apply in_map_iff in Hin as ([n0 c0] & E & Hin). inversion E; subst. cbn [snd].
  rewrite height_take, length_map, argsort_length.
  set (keys := join_keys (values ka) (values kb)).
  change (length (values (sort_key keys))) with (height (sort_key keys)).
  assert (H : height (sort_key keys) = length keys).
  { unfold height. unfold sort_key. rewrite sort_key_values. now rewrite length_map. }
  rewrite H. unfold keys, join_keys. now rewrite length_map.
Qed.

(** *** Blanking *)

Lemma iter_idempotent (A : Type) (f : A -> A) (x : A) k :
  f (f x) = f x -> Nat.iter (S k) f x = f x.
Proof.
  intros H. induction k as [|k IH]; [reflexivity|].
  change (Nat.iter (S (S k)) f x) with (f (Nat.iter (S k) f x)). now rewrite IH.
Qed.

Lemma blanked_columnwise df :
  blanked df =
  map (fun '(n, c) => (n, if not_page n then replace_nan "No body data" c else c)) df.
Proof.
  unfold blanked. rewrite fold_update_iter. apply map_ext_in. intros [n c] Hin.
  f_equal. destruct (not_page n) eqn:E.
  - assert (Hc : In n (filter not_page (columns df))).
    { apply filter_In. split; [|exact E].
      unfold columns. apply in_map_iff. now exists (n, c). }
    apply (count_occ_In string_dec) in Hc.
    destruct (count_occ string_dec (filter not_page (columns df)) n) as [|k]; [lia|].
    apply iter_idempotent. apply replace_nan_id. apply replace_nan_no_sentinel.
  - assert (Hc : ~ In n (filter not_page (columns df))).
    { intros Hc. apply filter_In in Hc as [_ Hc]. congruence. }
    apply (count_occ_not_In string_dec) in Hc. now rewrite Hc.
Qed.

Lemma values_replace_nan c :
  values (replace_nan "No body data" c) = map blank_cell (values c).
Proof.
  destruct c as [xs|xs]; cbn [replace_nan values]; rewrite !map_map; apply map_ext.
  - now intros [z|].
  - intros [s|]; [|reflexivity]. cbn [blank_cell].
    now destruct (String.eqb s "No body data").
Qed.

End Aligned.

(** ** Labels *)

Module Labels.
Import Pd Align Merged Aligned.


Lemma filter_map_not_page (g : string -> string) cols :
  (forall n, In n cols -> not_page (g n) = not_page n) ->
  filter not_page (map g cols) = map g (filter not_page cols).
Proof.
  induction cols as [|n cols IH]; intros H; [reflexivity|].
  cbn [map filter]. rewrite (H n (or_introl eq_refl)).
  rewrite IH by (intros m Hm; apply H; now right).
  now destruct (not_page n).
Qed.

Lemma collision_same_label A B c :
  other_columns A = [c] -> other_columns B = [c] -> collision A B = true.
Proof.
  unfold other_columns, collision. intros -> ->. cbn [app nodup].
  destruct (in_dec string_dec c [c]) as [_|H]; [reflexivity|].
  exfalso. apply H. now left.
Qed.

Lemma prefixes_differ c : ("file1_" ++ c)%string <> ("file2_" ++ c)%string.
Proof. simpl. intros H. inversion H. Qed.

Lemma other_columns_renamed p c df :
  (p = "file1_" \/ p = "file2_")%string ->
  other_columns df = [c] ->
  other_columns (rename c (p ++ c)%string df) = [(p ++ c)%string].
Proof.
  intros Hp H. unfold other_columns in *. rewrite columns_rename.
  assert (Hc : not_page c = true).
  { assert (Hin : In c (filter not_page (columns df))) by (rewrite H; now left).
    now apply filter_In in Hin. }
  rewrite filter_map_not_page.
  - rewrite H. cbn [map]. now rewrite String.eqb_refl.
  - intros n _. now apply not_page_prefixed.
Qed.

Lemma not_in_renamed p q c df :
  (p ++ c)%string <> (q ++ c)%string ->
  not_page (p ++ c)%string = true ->
  other_columns df = [c] ->
  (p ++ c)%string <> c ->
  ~ In (p ++ c)%string (columns (rename c (q ++ c)%string df)).
Proof.
  intros Hpq Hp H Hne Hin. rewrite columns_rename in Hin.
  apply in_map_iff in Hin as (n & E & Hn).
  destruct (String.eqb n c) eqn:Enc; [congruence|].
  apply String.eqb_neq in Enc. subst n.
  assert (Hin : In (p ++ c)%string (other_columns df)).
  { apply filter_In. split; [exact Hn|exact Hp]. }
  rewrite H in Hin. destruct Hin as [Hin|[]]. congruence.
Qed.

Lemma append_length p c :
  String.length (p ++ c) = String.length p + String.length c.
Proof. induction p as [|a p IH]; simpl; [reflexivity|]. now rewrite IH. Qed.

Lemma prefix_grows p c : 0 < String.length p -> (p ++ c)%string <> c.
Proof.
  intros Hp H. apply (f_equal String.length) in H.
  rewrite append_length in H. lia.
Qed.


(** *** When the suffixes raise nothing *)

Lemma new_duplicate_same l : forall seen,
  new_duplicate seen seen (map (fun n => (n, n)) l) = false.
Proof.
  induction l as [|n l IH]; intros seen; cbn [map new_duplicate]; [reflexivity|].
  rewrite IH. now destruct (mem n seen).
Qed.

(** Frames that share no label but the key are merged without suffix. *)
Lemma no_overlap_no_clash left right :
  (forall n, In n (columns left) -> String.eqb n "page" = false ->
             ~ In n (columns right)) ->
  suffix_clash left right "page" = false.
Proof.
  intros H. unfold suffix_clash.
  rewrite (map_ext_in _ (fun n => (n, n))).
  - rewrite new_duplicate_same. cbn [orb].
    rewrite (map_ext_in _ (fun n => (n, n))); [apply new_duplicate_same|].
    intros n Hn. apply filter_In in Hn as [Hn Hp]. apply negb_true_iff in Hp.
    unfold suffixed. rewrite mem_false; [reflexivity|].
    intros Hin. exact (H n Hin Hp Hn).
  - intros n Hn. destruct (String.eqb n "page") eqn:Hp; [reflexivity|].
    unfold suffixed. rewrite mem_false; [reflexivity|]. now apply H.
Qed.

Lemma in_other_columns n df :
  In n (columns df) -> String.eqb n "page" = false -> In n (other_columns df).
Proof.
  intros Hn Hp. apply filter_In. split; [exact Hn|]. unfold not_page. now rewrite Hp.
Qed.

(** Tables whose other columns have distinct labels. *)
Lemma distinct_labels_no_clash A B :
  NoDup (other_columns A ++ other_columns B) ->
  suffix_clash (left_input A B) (right_input A B) "page" = false.
Proof.
  intros Hnd. unfold left_input, right_input. rewrite (collision_free A B Hnd).
  apply no_overlap_no_clash. intros n Hn Hp Hin. rewrite columns_blanked in Hin.
  exact (NoDup_app_disjoint _ _ _ n Hnd (in_other_columns n A Hn Hp)
                            (in_other_columns n B Hin Hp)).
Qed.

(** Tables with one other column each, of the same label. *)
Lemma same_label_no_clash A B c :
  other_columns A = [c] -> other_columns B = [c] ->
  suffix_clash (left_input A B) (right_input A B) "page" = false.
Proof.
  intros Ha Hb.
  assert (Hb' : other_columns (blanked B) = [c]).
  { unfold other_columns. rewrite columns_blanked. exact Hb. }
  unfold left_input, right_input. rewrite (collision_same_label A B c Ha Hb).
  unfold other_columns in Ha, Hb. rewrite Ha, Hb.
  apply no_overlap_no_clash. intros n Hn Hp Hin.
  pose proof (other_columns_renamed "file1_" c A (or_introl eq_refl) Ha) as HoL.
  pose proof (in_other_columns n _ Hn Hp) as Hn'. rewrite HoL in Hn'.
  destruct Hn' as [<-|[]].
  revert Hin. apply not_in_renamed.
  - apply prefixes_differ.
  - reflexivity.
  - exact Hb'.
  - apply prefix_grows. simpl. lia.
Qed.

End Labels.

(** ** The order of the join *)

Module JoinOrder.
Import Pd Align SortFacts Merged Fallback Commute Aligned.

















(** *** Strings that are no numbers *)






End JoinOrder.

(** ** The two orders of the arguments *)

Module Swap.
Import Pd Align SortFacts Merged Fallback Commute Aligned Labels.










(** *** Labels without collision *)







(** *** Cells and rows *)



End Swap.

(** ** The fallback of the sort, and the order of the arguments *)






(** * Further properties *)

(** ** The cleaned text *)

Module Clean.
Import Re ReFacts Format.

Lemma lstrip_fixed s : edge_ok s -> lstrip s = s.
Proof. destruct s as [|c s]; simpl; [reflexivity|]. unfold lstrip. simpl. now intros ->. Qed.

Lemma lstrip_split s :
  s = takewhile isspace s ++ lstrip s.
Proof. apply take_drop. Qed.

Lemma rstrip_split s :
  s = rstrip s ++ rev (takewhile isspace (rev s)).
Proof.
  unfold rstrip. rewrite <- rev_app_distr, <- take_drop. now rewrite rev_involutive.
Qed.

Lemma rstrip_edge s : edge_ok s -> edge_ok (rstrip s).
Proof.
  intros H. pose proof (rstrip_split s) as E.
  destruct (rstrip s) as [|c r]; [exact I|].
  rewrite E in H. exact H.
Qed.

Lemma strip_trimmed s : trimmed (strip s).
Proof.
  unfold strip. split.
  - apply rstrip_edge. apply (dropwhile_head isspace s).
  - unfold rstrip. rewrite rev_involutive. apply (dropwhile_head isspace).
Qed.

Lemma trimmed_strip s : trimmed s -> strip s = s.
Proof.
  intros [H1 H2]. unfold strip. rewrite lstrip_fixed by exact H1.
  unfold rstrip. fold (lstrip (rev s)). rewrite lstrip_fixed by exact H2.
  apply rev_involutive.
Qed.

Lemma strip_infix s : infix (strip s) s.
Proof.
  exists (takewhile isspace s), (rev (takewhile isspace (rev (lstrip s)))).
  unfold strip. rewrite <- rstrip_split. apply lstrip_split.
Qed.

(** *** Occurrences *)

Lemma startswith_prefix p a b :
  startswith p a = true -> startswith p (a ++ b) = true.
Proof.
  revert a. induction p as [|x p IH]; intros a; [reflexivity|].
  destruct a as [|y a]; simpl; [discriminate|].
  intros H. apply andb_true_iff in H as [-> H]. simpl. now apply IH.
Qed.

Lemma contains_nil_l s : contains [] s = true.
Proof. destruct s; reflexivity. Qed.

Lemma contains_prefix p a b :
  contains p a = true -> contains p (a ++ b) = true.
Proof.
  induction a as [|c a IH].
  - cbn [contains]. rewrite orb_false_r. destruct p; [|discriminate].
    intros _. apply contains_nil_l.
  - cbn [contains app]. intros H. apply orb_true_iff in H as [H|H].
    + pose proof (startswith_prefix _ (c :: a) b H) as H'. cbn [app] in H'.
      now rewrite H'.
    + rewrite (IH H). apply orb_true_r.
Qed.

Lemma contains_suffix p a b :
  contains p b = true -> contains p (a ++ b) = true.
Proof.
  intros H. destruct (contains p (a ++ b)) eqn:E; [reflexivity|].
  apply contains_app_r in E. congruence.
Qed.

Lemma contains_infix p a s :
  infix a s -> contains p a = true -> contains p s = true.
Proof.
  intros (l & r & ->) H. apply contains_suffix. now apply contains_prefix.
Qed.

(** An occurrence of [w] does not start in a block of characters that
    are not in [w]. *)
Lemma contains_skip w f y :
  w <> [] -> Forall (fun c => ~ In c w) f ->
  contains w (f ++ y) = contains w y.
Proof.
  intros Hw. induction 1 as [|c f Hc _ IH]; [reflexivity|].
  cbn [app contains]. rewrite IH.
  destruct w as [|a w]; [congruence|]. cbn [startswith].
  destruct (Ascii.eqb a c) eqn:E; [|reflexivity].
  apply Ascii.eqb_eq in E. subst. exfalso. apply Hc. now left.
Qed.

(** *** Runs of spaces *)

Lemma eqb_sp c : is_sp c = false -> Ascii.eqb sp c = false.
Proof. unfold is_sp. now rewrite Ascii.eqb_sym. Qed.

Lemma squeeze_sp_single s : forall p,
  contains [sp; sp] (squeeze is_sp [sp] [sp] p s) = false.
Proof.
  induction s as [|c s IH]; intros p.
  - destruct p as [|[|p]]; reflexivity.
  - cbn [squeeze]. destruct (is_sp c) eqn:Hc; [apply IH|].
    assert (H : contains [sp; sp] (c :: squeeze is_sp [sp] [sp] 0 s) = false).
    { cbn [contains startswith]. rewrite (eqb_sp _ Hc), IH. reflexivity. }
    assert (H' : contains [sp; sp] (sp :: c :: squeeze is_sp [sp] [sp] 0 s) = false).
    { change (contains [sp; sp] (sp :: ?x))
        with (startswith [sp; sp] (sp :: x) || contains [sp; sp] x).
      rewrite H. cbn [startswith]. rewrite (eqb_sp _ Hc).
      now rewrite andb_false_r. }
    destruct p as [|[|p]]; cbn [flush app]; [exact H|exact H'|exact H'].
Qed.

Lemma squeeze_sp_fixed s : forall p,
  p <= 1 ->
  contains [sp; sp] (repeat sp p ++ s) = false ->
  squeeze is_sp [sp] [sp] p s = repeat sp p ++ s.
Proof.
  induction s as [|c s IH]; intros p Hp H.
  - destruct p as [|[|p]]; [reflexivity|reflexivity|lia].
  - cbn [squeeze]. destruct (is_sp c) eqn:Hc.
    + apply Ascii.eqb_eq in Hc. subst c.
      destruct p as [|[|p]]; [|discriminate H|lia].
      apply (IH 1); [lia|exact H].
    + assert (Hs : contains [sp; sp] s = false).
      { apply contains_app_r in H. now apply contains_cons in H. }
      rewrite (IH 0 ltac:(lia) Hs).
      destruct p as [|[|p]]; [reflexivity|reflexivity|lia].
Qed.

(** *** Runs of newlines *)

Lemma repeat_snoc (A : Type) (a : A) n l : repeat a n ++ a :: l = repeat a (S n) ++ l.
Proof. induction n as [|n IH]; simpl; [reflexivity|]. f_equal. exact IH. Qed.

Lemma normal_fixed s : forall cur,
  Forall (fun n => n = 2) (nl_runs_from cur s) ->
  squeeze is_nl [sp] [nl; nl] cur s = repeat nl cur ++ s.
Proof.
  induction s as [|c s IH]; intros cur H.
  - simpl in H. destruct cur as [|cur]; [reflexivity|].
    inversion H as [|? ? E _]; subst. inversion E. reflexivity.
  - cbn [squeeze]. destruct (is_nl c) eqn:Hc.
    + cbn [nl_runs_from] in H. rewrite Hc in H.
      rewrite (IH _ H). apply Ascii.eqb_eq in Hc. subst c.
      symmetry. apply repeat_snoc.
    + rewrite nl_runs_from_other in H by exact Hc.
      apply Forall_app in H as [H1 H2]. rewrite (IH 0 H2).
      destruct cur as [|cur]; [reflexivity|].
      inversion H1 as [|? ? E _]; subst. inversion E. reflexivity.
Qed.

(** *** The characters that are kept *)

Lemma ink_spaces w : Forall (fun c => isspace c = true) w -> ink w = [].
Proof. induction 1 as [|c w Hc _ IH]; simpl; [reflexivity|]. now rewrite Hc. Qed.

Lemma ink_app a b : ink (a ++ b) = ink a ++ ink b.
Proof. apply filter_app. Qed.

Lemma ink_strip s : ink (strip s) = ink s.
Proof.
  unfold strip.
  rewrite (lstrip_split s) at 2. rewrite (rstrip_split (lstrip s)) at 2.
  rewrite !ink_app.
  rewrite (ink_spaces (takewhile isspace s)) by apply takewhile_all.
  rewrite (ink_spaces (rev _)); [now rewrite app_nil_r|].
  apply Forall_rev. apply takewhile_all.
Qed.

Lemma ink_squeeze cls one many :
  (forall c, cls c = true -> isspace c = true) ->
  Forall (fun c => isspace c = true) one ->
  Forall (fun c => isspace c = true) many ->
  forall s p, ink (squeeze cls one many p s) = ink s.
Proof.
  intros Hcls Hone Hmany.
  assert (Hf : forall p, ink (flush one many p) = []).
  { intros [|[|p]]; [reflexivity| |]; now apply ink_spaces. }
  induction s as [|c s IH]; intros p.
  - apply Hf.
  - cbn [squeeze]. destruct (cls c) eqn:Hc.
    + rewrite IH. simpl. now rewrite (Hcls c Hc).
    + rewrite ink_app, Hf. cbn [app]. change (c :: ?x) with ([c] ++ x).
      rewrite !(ink_app [c]). now rewrite IH.
Qed.

(** *** The placeholder *)

Lemma squeeze_start cls one many w :
  one <> [] -> many <> [] ->
  Forall (fun c => cls c = false) w ->
  Forall (fun c => ~ In c w) (one ++ many) ->
  forall s, startswith w (squeeze cls one many 0 s) = true -> startswith w s = true.
Proof.
  intros Hone Hmany Hw Hout. induction Hw as [|a w Ha Hw IH]; [reflexivity|].
  intros s H. destruct s as [|c s]; [discriminate H|].
  destruct (cls c) eqn:Hc.
  - exfalso. rewrite squeeze_cons_run in H by exact Hc.
    assert (Hhead : exists x f, flush one many (S (length (takewhile cls s))) = x :: f
                                /\ ~ In x (a :: w)).
    { apply Forall_app in Hout as [H1 H2].
      destruct (length (takewhile cls s)); cbn [flush].
      - destruct one as [|x f]; [congruence|]. exists x, f. split; [reflexivity|].
        now inversion H1.
      - destruct many as [|x f]; [congruence|]. exists x, f. split; [reflexivity|].
        now inversion H2. }
    destruct Hhead as (x & f & E & Hx). rewrite E in H. cbn [app startswith] in H.
    apply andb_true_iff in H as [H _]. apply Ascii.eqb_eq in H. subst x.
    apply Hx. now left.
  - rewrite squeeze_cons_other in H by exact Hc. cbn [startswith] in *.
    apply andb_true_iff in H as [-> H]. simpl. apply IH; [|exact H].
    rewrite Forall_forall in *. intros x Hx Hin. apply (Hout x Hx). now right.
Qed.

Lemma flush_cases (one many : text) p :
  flush one many p = [] \/ flush one many p = one \/ flush one many p = many.
Proof. destruct p as [|[|p]]; auto. Qed.

Lemma squeeze_contains cls one many w :
  w <> [] -> one <> [] -> many <> [] ->
  Forall (fun c => cls c = false) w ->
  Forall (fun c => ~ In c w) (one ++ many) ->
  forall s, contains w (squeeze cls one many 0 s) = true -> contains w s = true.
Proof.
  intros Hne Hone Hmany Hw Hout s.
  remember (length s) as n eqn:Hn. revert s Hn.
  induction n as [n IH] using lt_wf_ind. intros s Hn H.
  destruct s as [|c s].
  - simpl in H. destruct w; [congruence|discriminate H].
  - destruct (cls c) eqn:Hc.
    + rewrite squeeze_cons_run in H by exact Hc.
      rewrite contains_skip in H; [|exact Hne|].
      * cbn [contains]. rewrite (take_drop cls s).
        rewrite (contains_suffix w (takewhile cls s) (dropwhile cls s)); [apply orb_true_r|].
        apply (IH (length (dropwhile cls s))); [|reflexivity|exact H].
        pose proof (dropwhile_length cls s). simpl in Hn. lia.
      * apply Forall_app in Hout as [H1 H2].
        destruct (flush_cases one many (S (length (takewhile cls s)))) as [E|[E|E]];
          rewrite E; [constructor|exact H1|exact H2].
    + rewrite squeeze_cons_other in H by exact Hc.
      cbn [contains] in H. apply orb_true_iff in H as [H|H].
      * cbn [contains].
        rewrite (squeeze_start cls one many w Hone Hmany Hw Hout (c :: s)); [reflexivity|].
        now rewrite squeeze_cons_other by exact Hc.
      * cbn [contains]. rewrite (IH (length s)) with (s := s);
          [apply orb_true_r|simpl in Hn; lia|reflexivity|exact H].
Qed.

Lemma normal_placeholder t :
  contains PARAGRAPH_BREAK t = false -> contains PARAGRAPH_BREAK (normal t) = false.
Proof.
  intros H. destruct (contains PARAGRAPH_BREAK (normal t)) eqn:E; [|reflexivity].
  rewrite <- H. symmetry.
  apply (squeeze_contains is_nl [sp] [nl; nl] PARAGRAPH_BREAK); try discriminate; try exact E.
  - repeat constructor.
  - repeat constructor; intros Hin; vm_compute in Hin; intuition discriminate.
Qed.

Lemma spaces_placeholder t :
  contains PARAGRAPH_BREAK t = false ->
  contains PARAGRAPH_BREAK (squeeze is_sp [sp] [sp] 0 t) = false.
Proof.
  intros H. destruct (contains PARAGRAPH_BREAK (squeeze is_sp [sp] [sp] 0 t)) eqn:E;
    [|reflexivity].
  rewrite <- H. symmetry.
  apply (squeeze_contains is_sp [sp] [sp] PARAGRAPH_BREAK); try discriminate; try exact E.
  - repeat constructor.
  - repeat constructor; intros Hin; vm_compute in Hin; intuition discriminate.
Qed.

Lemma format_text_cleaned t :
  contains PARAGRAPH_BREAK t = false -> format_text t = cleaned t.
Proof.
  intros H. destruct t as [|c s]; [reflexivity|].
  rewrite format_text_steps by discriminate.
  rewrite steps123_normal by exact H. unfold cleaned. f_equal.
  apply (sub_squeeze is_sp sp [sp]).
  intros d Hd. now apply Ascii.eqb_eq in Hd.
Qed.

Lemma format_text_strip t :
  exists u, format_text t = strip u /\
            contains [sp; sp] u = false.
Proof.
  destruct t as [|c s]; [exists []; split; reflexivity|].
  eexists. split; [apply format_text_steps; discriminate|].
  rewrite (sub_squeeze is_sp sp [sp]); [apply squeeze_sp_single|].
  intros d Hd. now apply Ascii.eqb_eq in Hd.
Qed.

End Clean.

(** X1.  The cleaned text never has two spaces in a row, whatever the
    raw text. *)
Theorem format_text_single_spaces (t : text) :
  contains [sp; sp] (format_text t) = false.
Proof.
  destruct (Clean.format_text_strip t) as (u & -> & Hu).
  destruct (contains [sp; sp] (strip u)) eqn:E; [|reflexivity].
  rewrite <- Hu. symmetry.
  exact (Clean.contains_infix _ _ _ (Clean.strip_infix u) E).
Qed.

(** X2.  The cleaned text has no white space at either end, and
    stripping it again changes nothing. *)
Theorem format_text_trimmed (t : text) :
  trimmed (format_text t) /\ strip (format_text t) = format_text t.
Proof.
  assert (H : trimmed (format_text t)).
  { destruct (Clean.format_text_strip t) as (u & -> & _). apply Clean.strip_trimmed. }
  split; [exact H|]. now apply Clean.trimmed_strip.
Qed.

(** X3.  On a raw text without the placeholder [PARAGRAPH_BREAK], the
    five steps of [format_text] amount to one pass over the runs of
    newlines, one over the runs of spaces, and a strip. *)
Theorem format_text_one_pass (t : text) :
  contains PARAGRAPH_BREAK t = false ->
  format_text t = cleaned t.
Proof. apply Clean.format_text_cleaned. Qed.

Lemma format_text_one_pass_witness :
  contains PARAGRAPH_BREAK (str "a

 b") = false /\
  format_text (str "a

 b") = cleaned (str "a

 b").
Proof. split; [reflexivity|]. apply format_text_one_pass. reflexivity. Defined.

(** X4.  On a raw text without the placeholder, cleaning only touches
    white space: the other characters are kept, in order. *)
Theorem format_text_keeps_characters (t : text) :
  contains PARAGRAPH_BREAK t = false ->
  ink (format_text t) = ink t.
Proof.
  intros H. rewrite Clean.format_text_cleaned by exact H. unfold cleaned, normal.
  rewrite Clean.ink_strip.
  rewrite (Clean.ink_squeeze is_sp [sp] [sp]); [| |repeat constructor..].
  - apply (Clean.ink_squeeze is_nl [sp] [nl; nl]); [|repeat constructor..].
    apply Format.nl_isspace.
  - intros c Hc. apply Ascii.eqb_eq in Hc. now subst.
Qed.

Lemma format_text_keeps_characters_witness :
  contains PARAGRAPH_BREAK (str " two
words ") = false /\
  ink (format_text (str " two
words ")) = str "twowords".
Proof.
  split; [reflexivity|].
  rewrite format_text_keeps_characters; reflexivity.
Defined.

(** X5.  On a raw text without the placeholder, cleaning is idempotent:
    the cleaned text is again without the placeholder, and cleaning it
    gives it back. *)
Theorem format_text_idempotent (t : text) :
  contains PARAGRAPH_BREAK t = false ->
  contains PARAGRAPH_BREAK (format_text t) = false /\
  format_text (format_text t) = format_text t.
Proof.
  intros H.
  assert (Hfree : contains PARAGRAPH_BREAK (format_text t) = false).
  { rewrite Clean.format_text_cleaned by exact H. unfold cleaned.
    destruct (contains PARAGRAPH_BREAK (strip _)) eqn:E; [|reflexivity].
    apply (Clean.contains_infix _ _ _ (Clean.strip_infix _)) in E.
    rewrite Clean.spaces_placeholder in E; [discriminate|].
    now apply Clean.normal_placeholder. }
  split; [exact Hfree|].
  rewrite (Clean.format_text_cleaned (format_text t)) by exact Hfree.
  unfold cleaned.
  assert (Hruns : Forall (fun n => n = 2) (nl_runs (format_text t))).
  { rewrite Clean.format_text_cleaned by exact H. unfold cleaned.
    apply Format.strip_runs. unfold nl_runs. rewrite Format.squeeze_spaces_runs.
    cbn [flush app]. apply Format.normal_runs. }
  unfold normal. rewrite (Clean.normal_fixed _ 0 Hruns). cbn [repeat app].
  rewrite (Clean.squeeze_sp_fixed _ 0); [| lia |].
  - destruct (Clean.format_text_strip t) as (u & E & _).
    rewrite E. apply Clean.trimmed_strip. apply Clean.strip_trimmed.
  - cbn [repeat app].
    destruct (Clean.format_text_strip t) as (u & E & Hu). rewrite E.
    destruct (contains [sp; sp] (strip u)) eqn:E2; [|reflexivity].
    rewrite <- Hu. symmetry.
    exact (Clean.contains_infix _ _ _ (Clean.strip_infix u) E2).
Qed.

Lemma format_text_idempotent_witness :
  contains PARAGRAPH_BREAK (str "a


  b
c ") = false /\
  format_text (format_text (str "a


  b
c ")) = format_text (str "a


  b
c ").
Proof.
  split; [reflexivity|].
  apply (format_text_idempotent (str "a


  b
c ")). reflexivity.
Defined.

(** ** The pages of a document *)

Module Pages.
Import Re ReFacts Separator Segmenter Format Clean.

Lemma all_hash l :
  Forall (fun c => is_hash c = true) l -> l = repeat "#"%char (length l).
Proof.
  induction 1 as [|c l Hc _ IH]; simpl; [reflexivity|].
  apply Ascii.eqb_eq in Hc. subst. now f_equal.
Qed.

(** What the pattern accepts after [## p] and the optional dot. *)
Lemma tail_shape s pos caps0 len caps :
  run (seq_tail (seq_tail separator_pattern)) s pos caps0 (fun _ p c => Some (p, c))
  = Some (len, caps) ->
  exists label seq hashes rest,
    Forall (fun c => not_paren_hash c = true) label /\
    Forall (fun c => isdigit c = true) seq /\ seq <> [] /\ 30 <= hashes /\
    s = str " " ++ label ++ str "(#" ++ seq ++ str ") " ++ repeat "#"%char hashes ++ rest /\
    len = pos + (1 + length label + 2 + length seq + 2 + hashes) /\
    caps = (2, seq) :: (1, label) :: caps0.
Proof.
  cbn [seq_tail separator_pattern run]. intros H.
  destruct (startswith (str " ") s) eqn:E1; [|discriminate].
  apply startswith_split in E1.
  remember (skipn (length (str " ")) s) as s1 eqn:Hs1. clear Hs1.
  apply rep_sound in H as (n1 & _ & Hn1 & Hall1 & H).
  destruct (startswith (str "(#") (skipn n1 s1)) eqn:E2; [|discriminate].
  apply startswith_split in E2.
  remember (skipn (length (str "(#")) (skipn n1 s1)) as s2 eqn:Hs2. clear Hs2.
  apply rep_sound in H as (n2 & Hlo2 & Hn2 & Hall2 & H).
  destruct (startswith (str ") ") (skipn n2 s2)) eqn:E3; [|discriminate].
  apply startswith_split in E3.
  remember (skipn (length (str ") ")) (skipn n2 s2)) as s3 eqn:Hs3. clear Hs3.
  apply rep_sound in H as (n3 & Hlo3 & Hn3 & Hall3 & H).
  inversion H; subst len caps. clear H.
  exists (firstn n1 s1), (firstn n2 s2), n3, (skipn n3 s3).
  assert (L1 : length (firstn n1 s1) = n1) by (rewrite length_firstn; lia).
  assert (L2 : length (firstn n2 s2) = n2) by (rewrite length_firstn; lia).
  assert (L3 : length (firstn n3 s3) = n3) by (rewrite length_firstn; lia).
  split; [exact Hall1|]. split; [exact Hall2|]. split.
  { intros E. rewrite E in L2. simpl in L2. lia. }
  split; [exact Hlo3|]. split.
  { rewrite E1 at 1. f_equal.
    rewrite <- (firstn_skipn n1 s1) at 1. f_equal.
    rewrite E2 at 1. f_equal.
    rewrite <- (firstn_skipn n2 s2) at 1. f_equal.
    rewrite E3 at 1. f_equal.
    rewrite <- (firstn_skipn n3 s3) at 1. f_equal.
    rewrite (all_hash _ Hall3). now rewrite L3. }
  split.
  { rewrite L1, L2. simpl. lia. }
  f_equal; [f_equal; f_equal; lia|]. f_equal. f_equal. f_equal. simpl. lia.
Qed.

(** A match of the separator pattern is a separator line. *)
Lemma match_here_shape s len caps :
  match_here separator_pattern s = Some (len, caps) ->
  exists dot label seq hashes rest,
    Forall (fun c => not_paren_hash c = true) label /\
    Forall (fun c => isdigit c = true) seq /\ seq <> [] /\ 30 <= hashes /\
    s = separator_line dot label seq hashes ++ rest /\
    len = length (separator_line dot label seq hashes) /\
    caps = [(2, seq); (1, label)].
Proof.
  unfold match_here.
  change separator_pattern
    with (Seq (Lit (str "## p"))
              (Seq (Opt (Lit (str "."))) (seq_tail (seq_tail separator_pattern)))).
  rewrite run_lit_seq.
  destruct (startswith (str "## p") s) eqn:E0; [|discriminate].
  apply startswith_split in E0.
  remember (skipn (length (str "## p")) s) as s0 eqn:Hs0. clear Hs0.
  cbn [run].
  assert (Hno : forall l q,
            run (seq_tail (seq_tail separator_pattern)) s0 (0 + length (str "## p")) []
                (fun _ p c => Some (p, c)) = Some (l, q) ->
            exists dot label seq hashes rest,
              Forall (fun c => not_paren_hash c = true) label /\
              Forall (fun c => isdigit c = true) seq /\ seq <> [] /\ 30 <= hashes /\
              s = separator_line dot label seq hashes ++ rest /\
              l = length (separator_line dot label seq hashes) /\
              q = [(2, seq); (1, label)]).
  { intros l q H.
    apply tail_shape in H as (label & seq & hashes & rest & H1 & H2 & H3 & H4 & Es & El & Eq).
    exists false, label, seq, hashes, rest. repeat (split; [assumption|]).
    split; [|split; [|exact Eq]].
    - rewrite E0, Es. unfold separator_line. cbn [app]. repeat rewrite <- app_assoc.
      reflexivity.
    - rewrite El. unfold separator_line. repeat rewrite length_app.
      rewrite repeat_length. simpl. lia. }
  destruct (startswith (str ".") s0) eqn:Edot; [|intros H; inversion H as [H']; clear H].
  - apply startswith_split in Edot.
    destruct (run (seq_tail (seq_tail separator_pattern)) (skipn (length (str ".")) s0) _ _ _)
      as [[l q]|] eqn:Et.
    + intros H. inversion H; subst l q. clear H.
      apply tail_shape in Et as (label & seq & hashes & rest & H1 & H2 & H3 & H4 & Es & El & Eq).
      exists true, label, seq, hashes, rest. repeat (split; [assumption|]).
      split; [|split; [|exact Eq]].
      * rewrite E0, Edot, Es. unfold separator_line. cbn [app]. repeat rewrite <- app_assoc.
        reflexivity.
      * rewrite El. unfold separator_line. repeat rewrite length_app.
        rewrite repeat_length. simpl. lia.
    + intros H. now apply Hno.
  - now apply Hno.
Qed.

(** Every match that [finditer] yields is a match of the pattern at its
    start. *)
Lemma finditer_from_matches r s : forall pos skip m,
  In m (finditer_from r s pos skip) ->
  exists k, m_start m = pos + k /\ k <= length s /\
            match_here r (skipn k s) = Some (m_end m - m_start m, m_groups m) /\
            m_start m <= m_end m.
Proof.
  induction s as [|c s IH]; intros pos skip m H.
  - destruct skip; [|contradiction]. cbn [finditer_from] in H.
    destruct (match_here r []) as [[len caps]|] eqn:E; [|contradiction].
    destruct H as [<-|[]]. exists 0. cbn [m_start m_end m_groups skipn length].
    rewrite E. repeat split; try lia. do 2 f_equal. lia.
  - destruct skip as [|skip].
    + cbn [finditer_from] in H.
      destruct (match_here r (c :: s)) as [[len caps]|] eqn:E.
      * destruct H as [<-|H].
        -- exists 0. cbn [m_start m_end m_groups skipn length].
           rewrite E. repeat split; try lia. do 2 f_equal. lia.
        -- apply IH in H as (k & H1 & H2 & H3 & H4). exists (S k).
           cbn [skipn length]. repeat split; try assumption; lia.
      * apply IH in H as (k & H1 & H2 & H3 & H4). exists (S k).
        cbn [skipn length]. repeat split; try assumption; lia.
    + cbn [finditer_from] in H.
      apply IH in H as (k & H1 & H2 & H3 & H4). exists (S k).
      cbn [skipn length]. repeat split; try assumption; lia.
Qed.

Lemma slice_infix s i j : infix (slice s i j) s.
Proof.
  exists (firstn i s), (skipn (j - i) (skipn i s)). unfold slice.
  now rewrite firstn_skipn, firstn_skipn.
Qed.

Lemma infix_trans a b c : infix a b -> infix b c -> infix a c.
Proof.
  intros (l & r & ->) (l' & r' & ->). exists (l' ++ l), (r ++ r').
  now repeat rewrite <- app_assoc.
Qed.

(** *** Rendered documents *)

Lemma finditer_from_skip r (a b : text) : forall pos,
  finditer_from r (a ++ b) pos (length a) = finditer_from r b (pos + length a) 0.
Proof.
  induction a as [|c a IH]; intros pos; cbn [app length].
  - now rewrite Nat.add_0_r.
  - cbn [finditer_from]. rewrite IH. f_equal. lia.
Qed.

Lemma match_here_plain c s :
  is_hash c = false -> match_here separator_pattern (c :: s) = None.
Proof.
  intros Hc. unfold match_here, separator_pattern. rewrite run_lit_seq.
  cbn [str list_ascii_of_string startswith]. unfold is_hash in Hc.
  rewrite Ascii.eqb_sym in Hc. now rewrite Hc.
Qed.

Lemma finditer_from_plain body rest :
  Forall (fun c => is_hash c = false) body ->
  forall pos,
    finditer_from separator_pattern (body ++ rest) pos 0 =
    finditer_from separator_pattern rest (pos + length body) 0.
Proof.
  induction 1 as [|c body Hc _ IH]; intros pos; cbn [app length].
  - now rewrite Nat.add_0_r.
  - cbn [finditer_from]. rewrite (match_here_plain c (body ++ rest) Hc). rewrite IH. f_equal. lia.
Qed.

Lemma page_line_cons p : exists c l, page_line p = c :: l.
Proof. unfold page_line, separator_line. simpl. eauto. Qed.

Lemma finditer_render pages :
  Forall page_ok pages ->
  forall pos, finditer_from separator_pattern (render pages) pos 0 = marks pos pages.
Proof.
  induction 1 as [|p ps Hp _ IH]; intros pos; [reflexivity|].
  destruct Hp as (Hlabel & Hseq & Hne & Hn & Hbody & Hplain).
  cbn [render marks].
  assert (Hm : match_here separator_pattern (page_line p ++ p_body p ++ render ps)
               = Some (length (page_line p), [(2, p_seq p); (1, p_label p)])).
  { apply match_here_separator_line; try assumption.
    destruct (p_body p) as [|c b]; [congruence|]. now inversion Hplain. }
  destruct (page_line_cons p) as (c & l & El).
  rewrite El in *. cbn [app finditer_from]. cbn [app] in Hm. rewrite Hm.
  f_equal. cbn [length]. replace (S (length l) - 1) with (length l) by lia.
  rewrite finditer_from_skip, finditer_from_plain by exact Hplain.
  rewrite IH. f_equal. lia.
Qed.

Lemma marks_length pages : forall pos, length (marks pos pages) = length pages.
Proof. induction pages as [|p ps IH]; intros pos; simpl; [reflexivity|]. now rewrite IH. Qed.

Lemma slice_middle (pre a b rest : text) :
  slice (pre ++ a ++ b ++ rest) (length pre + length a) (length pre + length a + length b)
  = b.
Proof.
  unfold slice.
  replace (pre ++ a ++ b ++ rest) with ((pre ++ a) ++ b ++ rest)
    by now rewrite <- app_assoc.
  rewrite <- (length_app pre a), skipn_length_app.
  replace (length (pre ++ a) + length b - length (pre ++ a)) with (length b) by lia.
  apply firstn_length_app.
Qed.

(** The page between two marks of a rendered document is the text
    rendered between their separator lines. *)
Lemma page_of_render d : forall pages pre i,
  i < length pages ->
  page_of (pre ++ render pages) (marks (length pre) pages) i =
  (p_seq (nth i pages d), strip (p_body (nth i pages d)),
   format_text (strip (p_body (nth i pages d)))).
Proof.
  induction pages as [|p ps IH]; intros pre i Hi; [simpl in Hi; lia|].
  destruct i as [|i].
  - pose proof (slice_middle pre (page_line p) (p_body p) (render ps)) as Hslice.
    destruct ps as [|p' ps']; unfold page_of;
      cbn [marks nth m_start m_end length group m_groups lookup Nat.eqb render
           Nat.sub Nat.ltb Nat.leb Nat.add].
    + cbn [render] in Hslice. rewrite app_nil_r in *.
      replace (length (pre ++ page_line p ++ p_body p))
        with (length pre + length (page_line p) + length (p_body p))
        by (repeat rewrite length_app; lia).
      now rewrite Hslice.
    + cbn [render] in Hslice. now rewrite Hslice.
  - cbn [length] in Hi. apply Nat.succ_lt_mono in Hi.
    specialize (IH (pre ++ page_line p ++ p_body p) i Hi).
    repeat rewrite length_app in IH. rewrite Nat.add_assoc in IH.
    repeat rewrite <- app_assoc in IH.
    cbn [nth render marks]. rewrite <- IH. clear IH.
    unfold page_of. cbn [nth length].
    rewrite !marks_length.
    replace (S (length ps) - 1) with (length ps) by lia.
    replace (S i + 1) with (S (i + 1)) by lia. cbn [nth].
    assert (E : (S i <? length ps) = (i <? length ps - 1)).
    { destruct (Nat.ltb_spec (S i) (length ps)), (Nat.ltb_spec i (length ps - 1));
        try reflexivity; lia. }
    now rewrite E.
Qed.

(** *** What stands before the first separator *)

Lemma shift_shift a b m : shift a (shift b m) = shift (a + b) m.
Proof. unfold shift. cbn [m_start m_end m_groups]. f_equal; lia. Qed.

Lemma finditer_from_shift r s : forall pos skip,
  finditer_from r s pos skip = map (shift pos) (finditer_from r s 0 skip).
Proof.
  induction s as [|c s IH]; intros pos skip.
  - destruct skip; [|reflexivity]. cbn [finditer_from].
    destruct (match_here r []) as [[len caps]|]; [|reflexivity].
    cbn [map]. unfold shift. cbn [m_start m_end m_groups]. do 2 f_equal; lia.
  - assert (Hstep : forall k,
              finditer_from r s (S pos) k = map (shift pos) (finditer_from r s 1 k)).
    { intros k. rewrite (IH (S pos)), (IH 1), map_map. apply map_ext.
      intros m. rewrite shift_shift. f_equal. lia. }
    destruct skip as [|skip]; cbn [finditer_from]; [|apply Hstep].
    destruct (match_here r (c :: s)) as [[len caps]|]; [|apply Hstep].
    cbn [map]. rewrite Hstep. f_equal.
    unfold shift. cbn [m_start m_end m_groups]. f_equal; lia.
Qed.

Lemma slice_shift (pre doc : text) a b :
  slice (pre ++ doc) (length pre + a) (length pre + b) = slice doc a b.
Proof.
  unfold slice. replace (length pre + b - (length pre + a)) with (b - a) by lia.
  f_equal. rewrite (Nat.add_comm (length pre) a), <- skipn_skipn.
  now rewrite skipn_length_app.
Qed.

Lemma nth_shift d ms i :
  i < length ms -> nth i (map (shift d) ms) no_match = shift d (nth i ms no_match).
Proof.
  intros Hi. rewrite (nth_indep _ no_match (shift d no_match)) by now rewrite length_map.
  apply map_nth.
Qed.

Lemma page_of_shift pre doc ms i :
  i < length ms ->
  page_of (pre ++ doc) (map (shift (length pre)) ms) i = page_of doc ms i.
Proof.
  intros Hi. unfold page_of. rewrite length_map, (nth_shift _ _ _ Hi).
  assert (E : slice (pre ++ doc) (m_end (shift (length pre) (nth i ms no_match)))
                    (if i <? length ms - 1
                     then m_start (nth (i + 1) (map (shift (length pre)) ms) no_match)
                     else length (pre ++ doc))
              = slice doc (m_end (nth i ms no_match))
                      (if i <? length ms - 1
                       then m_start (nth (i + 1) ms no_match)
                       else length doc)).
  { destruct (Nat.ltb_spec i (length ms - 1)) as [Hlt|_].
    - rewrite nth_shift by lia. apply slice_shift.
    - rewrite length_app. apply slice_shift. }
  now rewrite E.
Qed.

End Pages.

(** ** Separator lines in a document *)

Module Lines.
Import Re ReFacts Separator Segmenter Pages.

(** A run of characters of a class ends at the first character that is
    not of the class. *)
Lemma run_unique (p : ascii -> bool) (a : text) : forall (a' : text) x x' r r',
  Forall (fun c => p c = true) a -> Forall (fun c => p c = true) a' ->
  p x = false -> p x' = false ->
  a ++ x :: r = a' ++ x' :: r' -> a = a' /\ x = x' /\ r = r'.
Proof.
  induction a as [|c a IH]; intros a' x x' r r' Ha Ha' Hx Hx' E.
  - destruct a' as [|c' a']; simpl in E.
    + inversion E. auto.
    + inversion E; subst. inversion Ha'; subst. congruence.
  - inversion Ha as [|? ? Hc Ha0]; subst.
    destruct a' as [|c' a']; simpl in E.
    + inversion E; subst. congruence.
    + inversion E; subst. inversion Ha' as [|? ? Hc' Ha0']; subst.
      destruct (IH a' x x' r r' Ha0 Ha0' Hx Hx' H1) as (-> & -> & ->). auto.
Qed.

(** A line whose sequence token has a character other than a digit
    before any closing parenthesis does not match. *)
Lemma token_not_digits dot label ds c tl hashes rest :
  Forall (fun c => not_paren_hash c = true) label ->
  Forall (fun c => isdigit c = true) ds -> isdigit c = false -> c <> ")"%char ->
  match_here separator_pattern (separator_line dot label (ds ++ c :: tl) hashes ++ rest)
  = None.
Proof.
  intros Hlabel Hds Hc Hparen.
  destruct (match_here separator_pattern _) as [[len caps]|] eqn:E; [|reflexivity].
  exfalso.
  apply match_here_shape in E
    as (dot' & label' & seq' & hashes' & rest' & Hl' & Hs' & Hne' & Hh' & Es & _ & _).
  unfold separator_line in Es. repeat rewrite <- app_assoc in Es.
  apply app_inv_head in Es.
  assert (Et : label ++ str "(#" ++ ds ++ (c :: tl) ++ str ") " ++ repeat "#"%char hashes
                     ++ rest
               = label' ++ str "(#" ++ seq' ++ str ") " ++ repeat "#"%char hashes' ++ rest').
  { destruct dot, dot'; cbn [str list_ascii_of_string app] in Es |- *;
      inversion Es; reflexivity. }
  cbn [str list_ascii_of_string app] in Et.
  apply (run_unique not_paren_hash) in Et as (_ & _ & Et); try assumption; try reflexivity.
  injection Et as Et.
  apply (run_unique isdigit) in Et as (_ & Et & _); try assumption; [|reflexivity].
  exact (Hparen Et).
Qed.

Lemma cons_eq (a b : ascii) (l l' : text) : a :: l = b :: l' -> a = b /\ l = l'.
Proof. intros H. now inversion H. Qed.

(** Where a hash can follow another character. *)
Lemma hash_after (p : text) : forall (more t x : text) (c : ascii),
  Forall (fun a => is_hash a = false) p ->
  p ++ more = t ++ c :: "#"%char :: x ->
  (exists t', more = t' ++ c :: "#"%char :: x) \/
  (more = "#"%char :: x /\ p = t ++ [c]).
Proof.
  induction p as [|a p IH]; intros more t x c Hp E.
  - left. now exists t.
  - inversion Hp as [|? ? Ha Hp']; subst.
    destruct t as [|a' t]; cbn [app] in E; apply cons_eq in E as [<- E].
    + destruct p as [|b p]; cbn [app] in E.
      * right. split; [exact E|reflexivity].
      * apply cons_eq in E as [Eb _]. inversion Hp' as [|? ? Hb _]; subst.
        discriminate Hb.
    + destruct (IH more t x c Hp' E) as [H|[H1 H2]]; [now left|].
      right. split; [exact H1|]. cbn [app]. now rewrite H2.
Qed.

Lemma label_no_hash label :
  Forall (fun c => not_paren_hash c = true) label ->
  Forall (fun c => is_hash c = false) label.
Proof.
  apply Forall_impl. intros c H. unfold not_paren_hash in H.
  apply negb_true_iff, orb_false_iff in H as [_ H]. exact H.
Qed.

Lemma digits_no_hash seq :
  Forall (fun c => isdigit c = true) seq -> Forall (fun c => is_hash c = false) seq.
Proof.
  apply Forall_impl. intros c H. unfold is_hash.
  destruct (Ascii.eqb_spec c "#"%char) as [->|_]; [discriminate H|reflexivity].
Qed.

(** A match that begins before a line that starts with two hashes and a
    space, after a character other than a hash, ends before the
    line. *)
Lemma no_cross (u S' : text) len caps :
  u <> [] -> is_hash (last u nl) = false ->
  match_here separator_pattern (u ++ "#"%char :: "#"%char :: " "%char :: S')
  = Some (len, caps) ->
  len <= length u.
Proof.
  intros Hu Hlast E.
  apply match_here_shape in E
    as (dot & label & seq & hashes & rest & Hl & Hs & Hne & Hh & Es & -> & _).
  destruct (Nat.le_gt_cases (length (separator_line dot label seq hashes)) (length u))
    as [Hle|Hgt]; [exact Hle|]. exfalso.
  set (sl := separator_line dot label seq hashes) in *.
  assert (Ex : exists x1, sl = u ++ "#"%char :: x1 /\
                          x1 ++ rest = "#"%char :: " "%char :: S').
  { assert (E1 : firstn (length u) (sl ++ rest) = u)
      by (rewrite <- Es; apply firstn_length_app).
    rewrite firstn_app in E1.
    replace (length u - length sl) with 0 in E1 by lia.
    cbn [firstn] in E1. rewrite app_nil_r in E1.
    pose proof (firstn_skipn (length u) sl) as E2. rewrite E1 in E2.
    rewrite <- E2, <- app_assoc in Es. apply app_inv_head in Es.
    destruct (skipn (length u) sl) as [|y x1] eqn:Ey.
    - rewrite app_nil_r in E2. rewrite <- E2 in Hgt. lia.
    - cbn [app] in Es. injection Es as <- Es. exists x1. split; [now symmetry|].
      now symmetry. }
  destruct Ex as (x1 & Esl & Ex1).
  destruct (exists_last Hu) as (t & c & Eu). rewrite Eu in Esl, Hlast.
  rewrite last_last in Hlast. rewrite <- app_assoc in Esl. cbn [app] in Esl.
  clear Es Hgt Eu Hu u.
  unfold sl, separator_line in Esl. clear sl.
  destruct t as [|a [|b t]]; cbn [str list_ascii_of_string app] in Esl.
  - injection Esl as <- _. discriminate Hlast.
  - injection Esl as _ <- _. discriminate Hlast.
  - injection Esl as _ _ Esl.
    assert (E1 : (str " p" ++ (if dot then str "." else []) ++ str " " ++ label ++ str "(")
                 ++ "#"%char :: seq ++ str ") " ++ repeat "#"%char hashes
                 = t ++ c :: "#"%char :: x1).
    { rewrite <- Esl. repeat rewrite <- app_assoc. reflexivity. }
    apply hash_after in E1 as [(t' & E1)|[E1 E2]].
    + destruct t' as [|a' t']; cbn [app] in E1.
      * injection E1 as <- _. discriminate Hlast.
      * injection E1 as _ E1.
        assert (E2 : (seq ++ str ") ") ++ repeat "#"%char hashes
                     = t' ++ c :: "#"%char :: x1)
          by (rewrite <- E1; now rewrite <- app_assoc).
        apply hash_after in E2 as [(t'' & E2)|[E2 _]].
        -- assert (Hin : In c (repeat "#"%char hashes))
             by (rewrite E2; apply in_or_app; right; now left).
           apply repeat_spec in Hin. subst c. discriminate Hlast.
        -- destruct hashes as [|[|[|h]]]; try lia. cbn [repeat] in E2.
           injection E2 as <-. cbn [app] in Ex1. injection Ex1 as _ Ex1.
           discriminate Ex1.
        -- apply Forall_app. split; [now apply digits_no_hash|].
           repeat constructor.
    + injection E1 as <-. destruct seq as [|d seq]; [congruence|].
      cbn [app] in Ex1. injection Ex1 as -> _. inversion Hs; subst. discriminate.
    + repeat (apply Forall_app; split); try (repeat constructor).
      * destruct dot; repeat constructor.
      * now apply label_no_hash.
Qed.

Lemma last_tail (c : ascii) (u : text) :
  is_hash (last (c :: u) nl) = false -> is_hash (last u nl) = false.
Proof. destruct u; [reflexivity|]. now cbn [last]. Qed.

(** The scan of the text before such a line arrives at the line. *)
Lemma scan_before (S' : text) (u : text) : forall pos skip,
  is_hash (last u nl) = false -> skip <= length u ->
  exists ms,
    finditer_from separator_pattern (u ++ "#"%char :: "#"%char :: " "%char :: S') pos skip
    = ms ++ finditer_from separator_pattern ("#"%char :: "#"%char :: " "%char :: S')
                          (pos + length u) 0.
Proof.
  induction u as [|c u IH]; intros pos skip Hlast Hskip.
  - cbn [length] in Hskip. replace skip with 0 by lia. exists [].
    cbn [app length]. now rewrite Nat.add_0_r.
  - pose proof (last_tail c u Hlast) as Hlast'.
    cbn [length]. replace (pos + S (length u)) with (S pos + length u) by lia.
    destruct skip as [|k].
    + cbn [app finditer_from].
      destruct (match_here separator_pattern
                           (c :: u ++ "#"%char :: "#"%char :: " "%char :: S'))
        as [[len caps]|] eqn:E.
      * assert (Hlen : len <= length (c :: u))
          by (apply (no_cross (c :: u) S' len caps); [discriminate|exact Hlast|exact E]).
        cbn [length] in Hlen.
        destruct (IH (S pos) (len - 1) Hlast') as [ms Hms]; [lia|].
        exists (Match pos (pos + len) caps :: ms). cbn [app]. now rewrite Hms.
      * destruct (IH (S pos) 0 Hlast') as [ms Hms]; [lia|]. now exists ms.
    + cbn [app finditer_from]. cbn [length] in Hskip.
      destruct (IH (S pos) k Hlast') as [ms Hms]; [lia|]. now exists ms.
Qed.

(** A separator line is found where it stands. *)
Lemma line_found dot label seq hashes before rest :
  Forall (fun c => not_paren_hash c = true) label ->
  Forall (fun c => isdigit c = true) seq -> seq <> [] ->
  30 <= hashes ->
  is_hash (last before nl) = false ->
  match rest with [] => True | c :: _ => is_hash c = false end ->
  let line := separator_line dot label seq hashes in
  exists ms more,
    finditer separator_pattern (before ++ line ++ rest) =
    ms ++ Match (length before) (length before + length line) [(2, seq); (1, label)]
       :: more.
Proof.
  intros Hlabel Hseq Hne Hn Hlast Hrest line.
  pose proof (match_here_separator_line dot label seq hashes rest
                                        Hlabel Hseq Hne Hn Hrest) as Hm.
  fold line in Hm.
  assert (Eline : exists S', line ++ rest = "#"%char :: "#"%char :: " "%char :: S').
  { unfold line, separator_line. cbn [str list_ascii_of_string app]. eauto. }
  destruct Eline as [S' Eline]. rewrite Eline in *.
  destruct (scan_before S' before 0 0 Hlast (Nat.le_0_l _)) as [ms Hms].
  exists ms. unfold finditer. rewrite Hms. cbn [finditer_from]. rewrite Hm.
  eexists. reflexivity.
Qed.


End Lines.

(** ** The rows and the separators *)

(** C5.  A document with N >= 1 separator matches gives exactly N page
    rows, in document order: matches are non-empty and do not overlap,
    and row i carries group 2 of match i.  Its raw text is what stands
    between the end of match i and the start of match i+1 (the end of
    the document for the last match) once the white space at both ends
    is taken off: the document is [before ++ lead ++ raw ++ trail ++
    after], where [before] ends with match i, [after] begins with match
    i+1 or is empty, [lead] and [trail] are white space and [raw] has
    white space at neither end.  The rows are what the function writes
    after the header. *)
Theorem page_data_follows_separators (text_content : text) :
  let separators := Re.finditer separator_pattern text_content in
  let n := length separators in
  1 <= n ->
  length (page_data text_content) = n /\
  (forall i, i < n ->
     let m := nth i separators no_match in
     let stop := if S i <? n
                 then Re.m_start (nth (S i) separators no_match)
                 else length text_content in
     Re.m_start m < Re.m_end m /\ Re.m_end m <= stop /\ stop <= length text_content /\
     exists before lead raw trail after,
       text_content = before ++ lead ++ raw ++ trail ++ after /\
       length before = Re.m_end m /\
       length (before ++ lead ++ raw ++ trail) = stop /\
       Forall (fun c => isspace c = true) lead /\
       Forall (fun c => isspace c = true) trail /\
       trimmed raw /\
       nth i (page_data text_content) ([], [], [])
       = (Re.group m 2, raw, format_text raw)) /\
  (forall output_filename,
     process_text_to_csv text_content output_filename None =
     (("CSV file created successfully: " ++ output_filename ++ " with "
       ++ string_of_nat n ++ " pages")%string,
      Some (csv_rows (page_data text_content)))).
Proof.
  intros separators n Hn.
  pose proof (Segmenter.page_data_length text_content) as Hlen.
  fold separators in Hlen. fold n in Hlen.
  split; [exact Hlen|]. split.
  - intros i Hi m stop.
    pose proof (ReFacts.finditer_from_spans separator_pattern text_content 0 0) as Hsp.
    fold (Re.finditer separator_pattern text_content) in Hsp. fold separators in Hsp.
    destruct (@ReFacts.spans_ok_nth _ _ _ Hsp i no_match Hi) as (_ & _ & Hhi & Hnext).
    pose proof (Segmenter.finditer_from_nonempty _ Segmenter.match_here_nonempty
                  text_content 0 0) as Hne.
    fold (Re.finditer separator_pattern text_content) in Hne. fold separators in Hne.
    rewrite Forall_forall in Hne.
    assert (Hm : Re.m_start m < Re.m_end m) by (apply Hne, nth_In, Hi).
    assert (Hstop : Re.m_end m <= stop /\ stop <= length text_content).
    { unfold stop. destruct (Nat.ltb_spec (S i) n) as [Hlt|Hge].
      - split; [apply Hnext, Hlt|].
        destruct (@ReFacts.spans_ok_nth _ _ _ Hsp (S i) no_match Hlt) as (_ & A & B & _).
        simpl in B. lia.
      - simpl in Hhi. fold m in Hhi. lia. }
    split; [exact Hm|]. split; [tauto|]. split; [tauto|].
    set (span := slice text_content (Re.m_end m) stop).
    exists (firstn (Re.m_end m) text_content),
           (takewhile isspace span), (strip span),
           (rev (takewhile isspace (rev (lstrip span)))),
           (skipn (stop - Re.m_end m) (skipn (Re.m_end m) text_content)).
    assert (Espan : span = takewhile isspace span ++ strip span
                           ++ rev (takewhile isspace (rev (lstrip span)))).
    { unfold strip. rewrite <- Clean.rstrip_split. apply Clean.lstrip_split. }
    assert (Lspan : length span = stop - Re.m_end m).
    { unfold span, slice. rewrite length_firstn, length_skipn. lia. }
    assert (Lbefore : length (firstn (Re.m_end m) text_content) = Re.m_end m)
      by (rewrite length_firstn; lia).
    split.
    { rewrite (app_assoc (strip span)), (app_assoc (takewhile isspace span)), <- Espan.
      unfold span, slice. now rewrite firstn_skipn, firstn_skipn. }
    split; [exact Lbefore|].
    split.
    { rewrite <- Espan, length_app, Lbefore, Lspan. lia. }
    split; [apply Format.takewhile_all|].
    split; [apply Forall_rev, Format.takewhile_all|].
    split; [apply Clean.strip_trimmed|].
    rewrite Segmenter.page_data_nth by exact Hi.
    unfold page_of. fold separators. fold n. fold m.
    replace (i <? n - 1) with (S i <? n)
      by (destruct (Nat.ltb_spec (S i) n), (Nat.ltb_spec i (n - 1)); auto; lia).
    rewrite Nat.add_1_r. reflexivity.
  - intros output_filename. unfold process_text_to_csv.
    fold separators. destruct separators eqn:E; [simpl in Hn; unfold n in Hn; simpl in Hn; lia|].
    rewrite Hlen. reflexivity.
Qed.

Lemma page_data_follows_separators_witness :
  1 <= length (Re.finditer separator_pattern spec_doc) /\
  length (page_data spec_doc) = 2 /\
  (exists before lead raw trail after,
     spec_doc = before ++ lead ++ raw ++ trail ++ after /\
     length before = 43 /\
     length (before ++ lead ++ raw ++ trail) = 68 /\
     Forall (fun c => isspace c = true) lead /\
     Forall (fun c => isspace c = true) trail /\
     trimmed raw /\
     nth 0 (page_data spec_doc) ([], [], []) = (str "1", raw, format_text raw)).
Proof.
  assert (H : 1 <= length (Re.finditer separator_pattern spec_doc))
    by (vm_compute; repeat constructor).
  split; [exact H|].
  destruct (page_data_follows_separators spec_doc H) as (Hlen & Hrows & _).
  split; [exact Hlen|].
  assert (H0 : 0 < length (Re.finditer separator_pattern spec_doc))
    by (vm_compute; repeat constructor).
  destruct (Hrows 0 H0) as (_ & _ & _ & Hrow).
  exact Hrow.
Defined.

(** C8 as stated fails: a separator line whose sequence token is a roman
    numeral is not recognised; the document is reported as having no
    separator. *)
Lemma roman_sequence_token_not_recognised :
  let doc := separator_line true (str "ii ") (str "ii") 30 ++ str "
Preface." in
  Re.finditer separator_pattern doc = [] /\
  page_data doc = [] /\
  process_text_to_csv doc "out.csv"%string None =
  ("Error: No page separators found in the text file. Check the format."%string, None).
Proof. vm_compute. repeat split; reflexivity. Qed.

(** C8, amended.  Take a line of the documented format wherever it
    stands in a document: after a character other than a hash, or at
    the start, and with no hash after it.  When its sequence token is a
    non-empty run of digits, the line is recognised: one of the matches
    is exactly the line, and the row of that match has the token as its
    page number, character for character.  When the token has a
    character other than a digit before any closing parenthesis (a
    roman numeral, say), the line is not recognised: no match begins
    where the line does. *)
Theorem digit_separator_recognised (dot : bool) (label : text) (hashes : nat)
        (before rest : text) :
  Forall (fun c => not_paren_hash c = true) label ->
  30 <= hashes ->
  is_hash (last before nl) = false ->
  match rest with [] => True | c :: _ => is_hash c = false end ->
  (forall seq : text,
     Forall (fun c => isdigit c = true) seq -> seq <> [] ->
     let line := separator_line dot label seq hashes in
     let doc := before ++ line ++ rest in
     exists i raw,
       i < length (Re.finditer separator_pattern doc) /\
       nth i (Re.finditer separator_pattern doc) no_match =
       Re.Match (length before) (length before + length line) [(2, seq); (1, label)] /\
       nth i (page_data doc) ([], [], []) = (seq, raw, format_text raw)) /\
  (forall (ds : text) (c : ascii) (tl : text),
     Forall (fun c => isdigit c = true) ds -> isdigit c = false -> c <> ")"%char ->
     let line := separator_line dot label (ds ++ c :: tl) hashes in
     forall m, In m (Re.finditer separator_pattern (before ++ line ++ rest)) ->
               Re.m_start m <> length before).
Proof.
  intros Hlabel Hn Hlast Hrest. split.
  - intros seq Hseq Hne line doc.
    destruct (Lines.line_found dot label seq hashes before rest
                               Hlabel Hseq Hne Hn Hlast Hrest) as (ms & more & Hfind).
    fold line in Hfind. fold doc in Hfind.
    assert (Hi : length ms < length (Re.finditer separator_pattern doc))
      by (rewrite Hfind, length_app; cbn [length]; lia).
    assert (Hnth : nth (length ms) (Re.finditer separator_pattern doc) no_match =
                   Re.Match (length before) (length before + length line)
                            [(2, seq); (1, label)])
      by (rewrite Hfind; apply nth_middle).
    exists (length ms). eexists. split; [exact Hi|]. split; [exact Hnth|].
    rewrite Segmenter.page_data_nth by exact Hi.
    unfold page_of. rewrite Hnth. reflexivity.
  - intros ds c tl Hds Hc Hparen line m Hm Hstart.
    apply Pages.finditer_from_matches in Hm as (k & Hk & _ & Hm & _).
    cbn [Nat.add] in Hk. rewrite Hstart in Hk. subst k.
    rewrite skipn_length_app in Hm.
    unfold line in Hm.
    rewrite (Lines.token_not_digits dot label ds c tl hashes rest Hlabel Hds Hc Hparen)
      in Hm.
    discriminate.
Qed.

Lemma digit_separator_recognised_witness :
  (exists i raw,
     nth i (page_data (str "Title
" ++ separator_line true (str "xiv ") (str "020") 30 ++ str "
Text.")) ([], [], []) = (str "020", raw, format_text raw)) /\
  (forall m,
     In m (Re.finditer separator_pattern
             (str "Title
" ++ separator_line true (str "xiv ") (str "ii") 30 ++ str "
Text.")) -> Re.m_start m <> 6).
Proof.
  assert (H : Forall (fun c => not_paren_hash c = true) (str "xiv "))
    by (repeat constructor).
  assert (H30 : 30 <= 30) by (repeat constructor).
  destruct (digit_separator_recognised true (str "xiv ") 30 (str "Title
") (str "
Text.") H H30 eq_refl eq_refl) as [Hyes Hno].
  split.
  - assert (Hd : Forall (fun c => isdigit c = true) (str "020")) by (repeat constructor).
    assert (Hne : str "020" <> []) by discriminate.
    destruct (Hyes (str "020") Hd Hne) as (i & raw & _ & _ & Hrow).
    exists i, raw. exact Hrow.
  - assert (Hp : "i"%char <> ")"%char) by discriminate.
    exact (Hno [] "i"%char (str "i") (Forall_nil _) eq_refl Hp).
Defined.



(** X6.  Every separator found in a document is a separator line of the
    documented format: [## p], an optional dot, a space, a label without
    parenthesis or hash, the sequence number in [(#...)] as a non-empty
    run of digits, a space and thirty or more hashes; the page number is
    that run of digits. *)
Theorem separators_have_line_format (text_content : text) :
  Forall (fun m =>
            exists dot label seq hashes,
              Forall (fun c => not_paren_hash c = true) label /\
              Forall (fun c => isdigit c = true) seq /\ seq <> [] /\ 30 <= hashes /\
              slice text_content (Re.m_start m) (Re.m_end m)
              = separator_line dot label seq hashes /\
              Re.group m 1 = label /\ Re.group m 2 = seq)
         (Re.finditer separator_pattern text_content).
Proof.
  apply Forall_forall. intros m Hm.
  apply Pages.finditer_from_matches in Hm as (k & Hk & Hlen & Hm & Hle).
  apply Pages.match_here_shape in Hm
    as (dot & label & seq & hashes & rest & H1 & H2 & H3 & H4 & Es & El & Eq).
  exists dot, label, seq, hashes. repeat (split; [assumption|]).
  split; [|unfold Re.group; rewrite Eq; split; reflexivity].
  unfold slice. simpl in Hk. rewrite El, Hk, Es. apply firstn_length_app.
Qed.

(** X7.  The raw text of a page is a block of consecutive characters of
    the document, without white space at either end, and the clean text
    is the cleaning of the raw text: no row has text that is not in the
    document. *)
Theorem page_text_comes_from_document (text_content : text) :
  Forall (fun row : page_row =>
            let '(page_number, page_content, cleaned_content) := row in
            infix page_content text_content /\
            trimmed page_content /\
            cleaned_content = format_text page_content)
         (page_data text_content).
Proof.
  rewrite Segmenter.page_data_map. apply Forall_forall. intros row Hrow.
  apply in_map_iff in Hrow as (i & <- & _). unfold page_of.
  split; [|split; [apply Clean.strip_trimmed|reflexivity]].
  eapply Pages.infix_trans; [apply Clean.strip_infix|apply Pages.slice_infix].
Qed.

(** X8.  Segmenting a document made of pages gives the pages back: when
    each page is a well-formed separator line followed by a non-empty
    text without hash, the rows are, in order, the sequence number of
    each page with its text stripped and cleaned.  What stands before
    the first separator is left out. *)
Theorem page_data_of_rendered_pages (preamble : text) (pages : list page_spec) :
  Forall (fun c => is_hash c = false) preamble ->
  Forall page_ok pages ->
  page_data (preamble ++ render pages) =
  map (fun p => (p_seq p, strip (p_body p), format_text (strip (p_body p)))) pages.
Proof.
  intros Hpre Hpages. rewrite Segmenter.page_data_map.
  unfold Re.finditer. rewrite (Pages.finditer_from_plain preamble (render pages) Hpre).
  rewrite (Pages.finditer_render pages Hpages). cbn [Nat.add].
  rewrite Pages.marks_length.
  apply (nth_ext _ _ ([], [], []) ([], [], [])).
  - now rewrite !length_map, length_seq.
  - intros i Hi. rewrite length_map, length_seq in Hi.
    rewrite (nth_indep _ _ (page_of (preamble ++ render pages)
                                    (marks (length preamble) pages) 0))
      by now rewrite length_map, length_seq.
    rewrite (map_nth (page_of _ _) (seq 0 (length pages)) 0 i).
    rewrite seq_nth by exact Hi. cbn [Nat.add].
    rewrite (Pages.page_of_render (Page false [] [] 0 []) pages preamble i Hi).
    rewrite (nth_indep _ _ ((fun p => (p_seq p, strip (p_body p),
                                       format_text (strip (p_body p))))
                              (Page false [] [] 0 [])))
      by now rewrite length_map.
    now rewrite (map_nth (fun p => (p_seq p, strip (p_body p),
                                    format_text (strip (p_body p)))) pages).
Qed.

Lemma page_data_of_rendered_pages_witness :
  page_data (str "Title
" ++ render [Page true (str "i ") (str "1") 30 (str "
One.
"); Page false [] (str "2") 31 (str "
Two.")]) =
  [(str "1", str "One.", str "One."); (str "2", str "Two.", str "Two.")].
Proof.
  apply (page_data_of_rendered_pages (str "Title
") [Page true (str "i ") (str "1") 30 (str "
One.
"); Page false [] (str "2") 31 (str "
Two.")]).
  - repeat constructor.
  - repeat constructor; try discriminate; simpl; lia.
Defined.

(** X20.  What stands before the first separator is dropped: a text
    without hash put in front of a document does not change its rows. *)
Theorem preamble_is_dropped (preamble text_content : text) :
  Forall (fun c => is_hash c = false) preamble ->
  page_data (preamble ++ text_content) = page_data text_content.
Proof.
  intros Hpre. rewrite !Segmenter.page_data_map. unfold Re.finditer.
  rewrite (Pages.finditer_from_plain preamble text_content Hpre). cbn [Nat.add].
  rewrite Pages.finditer_from_shift, length_map.
  apply map_ext_in. intros i Hi. apply in_seq in Hi.
  apply Pages.page_of_shift. lia.
Qed.

Lemma preamble_is_dropped_witness :
  page_data (str "Front matter
" ++ spec_doc) = page_data spec_doc.
Proof.
  apply (preamble_is_dropped (str "Front matter
") spec_doc).
  repeat constructor.
Defined.

(** ** Further properties of the aligned table *)







(** X12.  For two tables that [merge] accepts (the key columns are of
    one type and no suffixed label clashes), the aligned table has the
    columns of the first table followed by the columns of the second
    other than the page, and all its columns have the same number of
    cells.  When the other columns of the two tables have distinct
    labels, the labels are kept as they are. *)
Theorem aligned_columns (A B : Pd.DataFrame) (ka kb : Pd.column) :
  Pd.get "page" A = Some ka -> Pd.get "page" B = Some kb ->
  Pd.dtype_clash ka kb = false ->
  Pd.suffix_clash (left_input A B) (right_input A B) "page" = false ->
  exists out,
    combine_frames A B = inr out /\
    length (Pd.columns out) = length (Pd.columns A) + length (other_columns B) /\
    all_height (Pd.nrows out) out /\
    (NoDup (other_columns A ++ other_columns B) ->
     Pd.columns out = Pd.columns A ++ other_columns B).
Proof.
  intros HA HB Hclash Hsuffix. exists (aligned A B ka kb).
  split; [now apply Aligned.combine_frames_aligned|].
  split; [|split].
  - rewrite Aligned.columns_aligned, length_app, !length_map.
    now rewrite Aligned.other_columns_left_length, Aligned.other_columns_right_length.
  - pose proof (Aligned.all_height_aligned A B ka kb) as H.
    pose proof (Aligned.get_page_aligned A B ka kb HA) as Hp.
    now rewrite (Merged.nrows_of_heights _ _ _ _ H Hp).
  - intros Hnd. rewrite Aligned.columns_aligned.
    unfold left_input, right_input. rewrite (Aligned.collision_free A B Hnd).
    rewrite Aligned.columns_blanked. fold (other_columns B). f_equal.
    + rewrite <- (map_id (Pd.columns A)) at 2. apply map_ext_in. intros n Hn.
      destruct (String.eqb n "page") eqn:E; [reflexivity|].
      unfold Pd.suffixed. rewrite Aligned.columns_blanked.
      rewrite Aligned.mem_false; [reflexivity|]. intros Hin.
      apply (Aligned.NoDup_app_disjoint _ _ _ n Hnd).
      * apply filter_In. split; [exact Hn|]. unfold not_page. now rewrite E.
      * apply filter_In. split; [exact Hin|]. unfold not_page. now rewrite E.
    + rewrite <- (map_id (other_columns B)) at 2. apply map_ext_in. intros n Hn.
      unfold Pd.suffixed. rewrite Aligned.mem_false; [reflexivity|]. intros Hin.
      apply (Aligned.NoDup_app_disjoint _ _ _ n Hnd); [|exact Hn].
      apply filter_In. split; [exact Hin|].
      now apply filter_In in Hn as [_ Hn].
Qed.

Lemma aligned_columns_witness :
  exists out,
    combine_frames primary_12 secondary_23 = inr out /\
    Pd.columns out = ["page"; "text"; "words"]%string.
Proof.
  destruct (aligned_columns primary_12 secondary_23
              (Pd.NumCol [Some 1%Z; Some 2%Z]) (Pd.NumCol [Some 2%Z; Some 3%Z])
              eq_refl eq_refl eq_refl eq_refl) as (out & H1 & _ & _ & H4).
  exists out. split; [exact H1|]. apply H4.
  repeat constructor; simpl; intuition discriminate.
Defined.

(** X13.  Blanking the second table changes nothing but cells that hold
    [No body data] outside the page column, which become missing: the
    labels and the page column are kept, every other cell is kept, and
    blanking twice is blanking once. *)
Theorem blanking_touches_only_sentinels (df2 : Pd.DataFrame) :
  Pd.columns (blanked df2) = Pd.columns df2 /\
  colvals (blanked df2) =
  map (fun '(n, c) => if not_page n then map blank_cell (Pd.values c) else Pd.values c)
      df2 /\
  blanked (blanked df2) = blanked df2.
Proof.
  split; [apply Aligned.columns_blanked|]. split.
  - rewrite Aligned.blanked_columnwise. unfold colvals. rewrite map_map.
    apply map_ext. intros [n c]. cbn [snd].
    destruct (not_page n); [apply Aligned.values_replace_nan|reflexivity].
  - apply Commute.blanked_id. apply Align.blanked_sentinel_free.
Qed.

(** ** The entry points *)

Module Paths.

Lemma rfind_from_spec c s : forall pos last,
  (last < pos)%Z ->
  let r := rfind_from c s pos last in
  (r = last /\ Forall (fun x => x <> c) s) \/
  ((pos <= r < pos + Z.of_nat (length s))%Z /\
   exists rest, skipn (Z.to_nat (r - pos)) s = c :: rest /\
                Forall (fun x => x <> c) rest).
Proof.
  induction s as [|x s IH]; intros pos last Hlt; cbn [rfind_from].
  - left. split; [reflexivity|constructor].
  - destruct (Ascii.eqb_spec x c) as [->|Hne].
    + specialize (IH (pos + 1)%Z pos ltac:(lia)). cbv zeta in IH.
      destruct IH as [[E Hall]|[Hr (rest & Hrest & Hall)]].
      * right. rewrite E. split; [cbn [length]; lia|].
        replace (Z.to_nat (pos - pos)) with 0 by lia. now exists s.
      * right. split; [cbn [length]; lia|]. exists rest. split; [|exact Hall].
        replace (Z.to_nat (rfind_from c s (pos + 1) pos - pos))
          with (S (Z.to_nat (rfind_from c s (pos + 1) pos - (pos + 1)))) by lia.
        exact Hrest.
    + specialize (IH (pos + 1)%Z last ltac:(lia)). cbv zeta in IH.
      destruct IH as [[E Hall]|[Hr (rest & Hrest & Hall)]].
      * left. split; [exact E|]. now constructor.
      * right. split; [cbn [length]; lia|]. exists rest. split; [|exact Hall].
        replace (Z.to_nat (rfind_from c s (pos + 1) last - pos))
          with (S (Z.to_nat (rfind_from c s (pos + 1) last - (pos + 1)))) by lia.
        exact Hrest.
Qed.

Lemma rfind_spec c s :
  (rfind c s = (-1)%Z /\ Forall (fun x => x <> c) s) \/
  ((0 <= rfind c s < Z.of_nat (length s))%Z /\
   exists rest, skipn (Z.to_nat (rfind c s)) s = c :: rest /\
                Forall (fun x => x <> c) rest).
Proof.
  unfold rfind.
  destruct (rfind_from_spec c s 0 (-1) ltac:(lia)) as [H|[Hr H]]; [now left|right].
  split; [lia|]. now rewrite Z.sub_0_r in H.
Qed.

Lemma skipn_tail (A : Type) n (s : list A) x rest :
  skipn n s = x :: rest -> skipn (S n) s = rest.
Proof.
  intros H. change (S n) with (1 + n). rewrite <- skipn_skipn. now rewrite H.
Qed.

Lemma basename_no_slash p : no_slash (basename p).
Proof.
  unfold basename, no_slash.
  destruct (rfind_spec "/"%char p) as [[E Hall]|[Hr (rest & Hrest & Hall)]].
  - rewrite E. exact Hall.
  - replace (Z.to_nat (rfind "/" p + 1)) with (S (Z.to_nat (rfind "/" p))) by lia.
    now rewrite (skipn_tail _ _ _ _ _ Hrest).
Qed.

Lemma basename_suffix p : exists dir, p = dir ++ basename p.
Proof.
  unfold basename. eexists. symmetry. apply firstn_skipn.
Qed.

Lemma splitext_join p : fst (splitext p) ++ snd (splitext p) = p.
Proof.
  unfold splitext.
  destruct (rfind "/" p <? rfind "." p)%Z; [|apply app_nil_r].
  destruct (existsb _ _); [apply firstn_skipn|apply app_nil_r].
Qed.

(** The extension that [splitext] cuts off is empty, or a dot followed
    by characters other than a dot. *)
Lemma splitext_ext p :
  snd (splitext p) = [] \/
  exists e, snd (splitext p) = "."%char :: e /\ Forall (fun x => x <> "."%char) e.
Proof.
  unfold splitext.
  destruct (rfind "/" p <? rfind "." p)%Z eqn:Elt; [|now left].
  destruct (existsb _ _); [|now left]. right. cbn [snd].
  destruct (rfind_spec "."%char p) as [[E _]|[_ H]]; [|exact H].
  apply Z.ltb_lt in Elt.
  destruct (rfind_spec "/"%char p) as [[E' _]|[Hr _]]; lia.
Qed.

Lemma no_slash_prefix a b : no_slash (a ++ b) -> no_slash a.
Proof. unfold no_slash. intros H. now apply Forall_app in H. Qed.

Lemma no_slash_app a b : no_slash a -> no_slash b -> no_slash (a ++ b).
Proof. unfold no_slash. intros Ha Hb. apply Forall_app. now split. Qed.

Lemma stem_no_slash p : no_slash (stem p).
Proof.
  unfold stem. apply (no_slash_prefix _ (snd (splitext (basename p)))).
  rewrite splitext_join. apply basename_no_slash.
Qed.

(** *** The two scripts *)


End Paths.



(** X15.  Without [--output], the segmentation script names its file
    after the input: the stem of the input path and [.csv].  The name
    has no slash, so the file is written in the working directory and
    not beside the input; the stem is what stands in the input path
    between the last slash and the extension.  This holds whether or
    not printing the result raises. *)
Theorem process_main_default_output (input_file text_content : text)
        (print_error : string -> option string) :
  Re.finditer separator_pattern text_content <> [] ->
  let name := stem input_file ++ str ".csv" in
  snd (process_main input_file None (ReadOk text_content) None print_error)
  = Some (name, csv_rows (page_data text_content)) /\
  no_slash name /\
  exists dir ext,
    input_file = dir ++ stem input_file ++ ext /\
    no_slash (stem input_file ++ ext) /\
    (ext = [] \/ exists e, ext = "."%char :: e /\ Forall (fun x => x <> "."%char) e).
Proof.
  intros Hsep name. split; [|split].
  - unfold process_main, process_text_to_csv.
    destruct (Re.finditer separator_pattern text_content); [congruence|].
    destruct (print_error _); [destruct (print_error _)|]; reflexivity.
  - apply Paths.no_slash_app; [apply Paths.stem_no_slash|].
    repeat constructor; discriminate.
  - destruct (Paths.basename_suffix input_file) as [dir E].
    exists dir, (snd (splitext (basename input_file))). unfold stem.
    rewrite Paths.splitext_join. split; [exact E|].
    split; [apply Paths.basename_no_slash|apply Paths.splitext_ext].
Qed.

Lemma process_main_default_output_witness :
  snd (process_main (str "scans/vol.1/book.txt") None (ReadOk spec_doc) None
                    (fun _ => None))
  = Some (str "book.csv", csv_rows (page_data spec_doc)).
Proof.
  apply (process_main_default_output (str "scans/vol.1/book.txt") spec_doc (fun _ => None)).
  discriminate.
Defined.

(** X16.  [main] of the alignment script ends with an exception of
    pandas exactly when both files are read and [merge] raises: a
    [KeyError] when a page column is missing, a [ValueError] when the
    two page columns are of different types, a [MergeError] when a
    suffixed label clashes.  Nothing is then printed or written.  A
    file that cannot be read is reported in the printed line instead,
    and nothing is written; the call of [print] is not guarded, so an
    exception that it raises ends the program. *)
Theorem combine_main_outcomes (file1 file2 : text) (output : option text)
        (read1 read2 : string + Pd.DataFrame) (io_error : option string)
        (print_error : string -> option string) :
  let outcome := combine_main file1 file2 output read1 read2 io_error print_error in
  (forall e,
     snd outcome = Some (PandasError e) <->
     exists A B,
       read1 = inr A /\ read2 = inr B /\
       (((Pd.get "page" A = None \/ Pd.get "page" B = None) /\ e = Pd.KeyError "page") \/
        exists ka kb,
          Pd.get "page" A = Some ka /\ Pd.get "page" B = Some kb /\
          ((Pd.dtype_clash ka kb = true /\ e = Pd.ValueError) \/
           (Pd.dtype_clash ka kb = false /\
            Pd.suffix_clash (left_input A B) (right_input A B) "page" = true /\
            e = Pd.MergeError)))) /\
  (forall e, snd outcome = Some (PandasError e) -> fst outcome = (None, None)) /\
  (forall e, read1 = inl e \/ (exists A, read1 = inr A /\ read2 = inl e) ->
             outcome = match print_error ("Error reading input files: " ++ e)%string with
                       | None => (Some ("Error reading input files: " ++ e)%string,
                                  None, None)
                       | Some e' => (None, None, Some (PrintError e'))
                       end).
Proof.
  intros outcome.
  assert (Hraise : forall e,
             snd outcome = Some (PandasError e) <->
             exists A B, read1 = inr A /\ read2 = inr B /\ combine_frames A B = inl e).
  { intros e. unfold outcome, combine_main, combine_csv_files.
    destruct read1 as [e1|A].
    { split; [destruct (print_error _); discriminate|].
      intros (A & B & H & _). discriminate H. }
    destruct read2 as [e2|B].
    { split; [destruct (print_error _); discriminate|].
      intros (A' & B & _ & H & _). discriminate H. }
    destruct (combine_frames A B) as [e'|df] eqn:Ef.
    - cbn [snd]. split.
      + intros H. injection H as <-. now exists A, B.
      + intros (A' & B' & EA & EB & H). inversion EA; inversion EB; subst A' B'.
        congruence.
    - split.
      + destruct io_error; destruct (print_error _); discriminate.
      + intros (A' & B' & EA & EB & H). inversion EA; inversion EB; subst A' B'.
        congruence. }
  split; [|split].
  - intros e. rewrite Hraise. split.
    + intros (A & B & EA & EB & H). exists A, B. split; [exact EA|]. split; [exact EB|].
      apply Aligned.combine_frames_raises in H. apply Aligned.merge_raises in H.
      now rewrite Align.get_page_left, Align.get_page_right in H.
    + intros (A & B & EA & EB & H). exists A, B. split; [exact EA|]. split; [exact EB|].
      apply Aligned.combine_frames_raises. apply Aligned.merge_raises.
      now rewrite Align.get_page_left, Align.get_page_right.
  - intros e H. unfold outcome, combine_main in *.
    destruct (combine_csv_files _ _ _ _) as [e'|[result written]]; [reflexivity|].
    destruct (print_error _); discriminate H.
  - intros e [->|(A & -> & ->)]; reflexivity.
Qed.

Lemma combine_main_outcomes_witness :
  snd (combine_main (str "a.csv") (str "b.csv") None (inr keyless) (inr secondary_23)
                    None (fun _ => None))
  = Some (PandasError (Pd.KeyError "page")) /\
  combine_main (str "a.csv") (str "b.csv") None (inl "No such file"%string)
               (inr secondary_23) None (fun _ => None)
  = (Some "Error reading input files: No such file"%string, None, None).
Proof.
  destruct (combine_main_outcomes (str "a.csv") (str "b.csv") None
                                  (inr keyless) (inr secondary_23) None (fun _ => None))
    as (H & _ & _).
  destruct (combine_main_outcomes (str "a.csv") (str "b.csv") None
                                  (inl "No such file"%string) (inr secondary_23) None
                                  (fun _ => None))
    as (_ & _ & H').
  split.
  - apply (proj2 (H (Pd.KeyError "page"))).
    exists keyless, secondary_23. split; [reflexivity|]. split; [reflexivity|].
    left. split; [left; reflexivity|reflexivity].
  - exact (H' "No such file"%string (or_introl eq_refl)).
Defined.

(** X17.  Without [--output], when [merge] accepts the two tables and
    neither writing nor printing raises, the alignment script names its
    file after both inputs: the two stems joined by an underscore, then
    [_combined.csv].  The name has no slash, so the file is written in
    the working directory, and it holds the aligned table. *)
Theorem combine_main_default_output (file1 file2 : text) (A B : Pd.DataFrame)
        (ka kb : Pd.column) (print_error : string -> option string) :
  Pd.get "page" A = Some ka -> Pd.get "page" B = Some kb ->
  Pd.dtype_clash ka kb = false ->
  Pd.suffix_clash (left_input A B) (right_input A B) "page" = false ->
  let name := stem file1 ++ str "_" ++ stem file2 ++ str "_combined.csv" in
  let line := ("Combined CSV file created successfully: "
               ++ string_of_list_ascii name)%string in
  exists out,
    combine_frames A B = inr out /\
    snd (fst (combine_main file1 file2 None (inr A) (inr B) None print_error))
    = Some (name, out) /\
    (print_error line = None ->
     combine_main file1 file2 None (inr A) (inr B) None print_error
     = (Some line, Some (name, out), None)) /\
    no_slash name.
Proof.
  intros HA HB Hclash Hsuffix name line. exists (aligned A B ka kb).
  pose proof (Aligned.combine_frames_aligned A B ka kb HA HB Hclash Hsuffix) as Hout.
  split; [exact Hout|]. split; [|split].
  - unfold combine_main, combine_csv_files. rewrite Hout.
    now destruct (print_error _).
  - intros Hp. unfold combine_main, combine_csv_files. rewrite Hout.
    fold (stem file1) (stem file2). fold name. fold line. now rewrite Hp.
  - unfold name. repeat apply Paths.no_slash_app; try apply Paths.stem_no_slash;
      repeat constructor; discriminate.
Qed.

Lemma combine_main_default_output_witness :
  exists out,
    combine_main (str "out/book.csv") (str "ef/book_ef.csv") None
                 (inr primary_12) (inr secondary_23) None (fun _ => None)
    = (Some "Combined CSV file created successfully: book_book_ef_combined.csv"%string,
       Some (str "book_book_ef_combined.csv", out), None).
Proof.
  destruct (combine_main_default_output (str "out/book.csv") (str "ef/book_ef.csv")
              primary_12 secondary_23
              (Pd.NumCol [Some 1%Z; Some 2%Z]) (Pd.NumCol [Some 2%Z; Some 3%Z])
              (fun _ => None)
              eq_refl eq_refl eq_refl eq_refl) as (out & _ & _ & H & _).
  exists out. exact (H eq_refl).
Defined.

(** ** The rows and the labels of the aligned table *)

Module Kept.
Import Pd Align SortFacts JoinCount Merged Fallback Commute Aligned.







End Kept.



(** X19.  When the two tables have one column each besides the page and
    the two have the same label, the aligned table has them as
    [file1_] and [file2_] followed by that label, without further
    suffix. *)
Theorem colliding_labels_get_prefixes (A B : Pd.DataFrame) (ka kb : Pd.column)
        (c : string) :
  Pd.get "page" A = Some ka -> Pd.get "page" B = Some kb ->
  Pd.dtype_clash ka kb = false ->
  other_columns A = [c] -> other_columns B = [c] ->
  exists out,
    combine_frames A B = inr out /\
    other_columns out = [("file1_" ++ c)%string; ("file2_" ++ c)%string].
Proof.
  intros HA HB Hclash Ha Hb. exists (aligned A B ka kb).
  split; [exact (Aligned.combine_frames_aligned A B ka kb HA HB Hclash
                   (Labels.same_label_no_clash A B c Ha Hb))|].
  assert (Hc : not_page c = true).
  { assert (Hin : In c (other_columns A)) by (rewrite Ha; now left).
    now apply filter_In in Hin. }
  assert (Hb' : other_columns (blanked B) = [c]).
  { unfold other_columns. rewrite Aligned.columns_blanked. exact Hb. }
  assert (HL : left_input A B = Pd.rename c ("file1_" ++ c)%string A).
  { unfold left_input. rewrite (Labels.collision_same_label A B c Ha Hb).
    unfold other_columns in Ha. now rewrite Ha. }
  assert (HR : right_input A B = Pd.rename c ("file2_" ++ c)%string (blanked B)).
  { unfold right_input. rewrite (Labels.collision_same_label A B c Ha Hb).
    unfold other_columns in Hb. now rewrite Hb. }
  assert (HoL : other_columns (left_input A B) = [("file1_" ++ c)%string]).
  { rewrite HL. apply Labels.other_columns_renamed; [now left|exact Ha]. }
  assert (HoR : other_columns (right_input A B) = [("file2_" ++ c)%string]).
  { rewrite HR. apply Labels.other_columns_renamed; [now right|exact Hb']. }
  assert (H1 : not_page ("file1_" ++ c)%string = true) by reflexivity.
  assert (H2 : not_page ("file2_" ++ c)%string = true) by reflexivity.
  assert (Hx : Pd.suffixed (right_input A B) "_x" ("file1_" ++ c)%string
               = ("file1_" ++ c)%string).
  { unfold Pd.suffixed. rewrite Aligned.mem_false; [reflexivity|]. rewrite HR.
    apply Labels.not_in_renamed; try assumption.
    - apply Labels.prefixes_differ.
    - apply Labels.prefix_grows. simpl. lia. }
  assert (Hy : Pd.suffixed (left_input A B) "_y" ("file2_" ++ c)%string
               = ("file2_" ++ c)%string).
  { unfold Pd.suffixed. rewrite Aligned.mem_false; [reflexivity|]. rewrite HL.
    apply Labels.not_in_renamed; try assumption.
    - intros E. symmetry in E. revert E. apply Labels.prefixes_differ.
    - apply Labels.prefix_grows. simpl. lia. }
  unfold other_columns at 1. rewrite Aligned.columns_aligned, filter_app.
  fold (other_columns (right_input A B)). rewrite HoR. cbn [map]. rewrite Hy.
  rewrite Labels.filter_map_not_page.
  - fold (other_columns (left_input A B)). rewrite HoL. cbn [map].
    change (String.eqb ("file1_" ++ c) "page") with false. cbv iota.
    rewrite Hx. cbn [filter]. now rewrite H2.
  - intros n _. destruct (String.eqb n "page") eqn:E; [reflexivity|].
    unfold not_page. rewrite E.
    now rewrite (Merged.suffixed_not_page (right_input A B) "_x" n (or_introl eq_refl) E).
Qed.

Lemma colliding_labels_get_prefixes_witness :
  exists out,
    combine_frames collide_a collide_b = inr out /\
    other_columns out = ["file1_text"; "file2_text"]%string.
Proof.
  apply (colliding_labels_get_prefixes collide_a collide_b
           (Pd.NumCol [Some 1%Z]) (Pd.NumCol [Some 1%Z]) "text"%string);
    reflexivity.
Defined.
